(** * Syntax-aware fill-in-the-middle: a shallow embedding of [src/fim.py]

    The development follows the Python module function by function:
    [get_fim_token_ids], [get_prefix_middle_suffix] (with its local helpers
    [is_child_type_annotation], [contains_url], [is_splitable] and
    [is_capturable]) and [permute].

    External collaborators (the tree-sitter parser and query, the tokenizer
    and numpy's [RandomState]) are interfaces, given as type classes; the
    theorems hold for every implementation of them.  Python exceptions are
    an explicit result type, and the mutable generator object together with
    the standard output is a world that is threaded through every call. *)

From Stdlib Require Import ZArith NArith QArith List Lia.
From Stdlib.Strings Require Import String Byte.
From stdpp Require Import base option list gmap strings.

Local Open Scope Z_scope.

(** ** Exceptions and results *)

(** The exception classes that the modelled code can meet.  The last two do
    not derive from Python's [Exception], so [except Exception] lets them
    through. *)
Inductive exn : Type :=
  | KeyError
  | IndexError
  | ValueError
  | TypeError
  | UnicodeDecodeError
  | UnicodeEncodeError
  | RuntimeError
  | KeyboardInterrupt
  | SystemExit.

(** [isinstance(e, Exception)]. *)
Definition is_Exception (e : exn) : bool :=
  match e with
  | KeyboardInterrupt | SystemExit => false
  | _ => true
  end.

(** [isinstance(e, KeyError)]. *)
Definition is_KeyError (e : exn) : bool :=
  match e with
  | KeyError => true
  | _ => false
  end.

(** The outcome of evaluating an expression: a value or a raised exception. *)
Inductive Result (A : Type) : Type :=
  | Ok (a : A)
  | Raise (e : exn).
Arguments Ok {A} a.
Arguments Raise {A} e.

#[export] Instance Result_ret : MRet Result := fun A a => Ok a.
#[export] Instance Result_bind : MBind Result := fun A B f r =>
  match r with
  | Ok a => f a
  | Raise e => Raise e
  end.
#[export] Instance Result_fmap : FMap Result := fun A B f r =>
  match r with
  | Ok a => Ok (f a)
  | Raise e => Raise e
  end.

(** An [option] read as a result: [None] raises [e]. *)
Definition or_raise {A} (e : exn) (o : option A) : Result A :=
  match o with
  | Some a => Ok a
  | None => Raise e
  end.

(** ** Bytes and text *)

(** Python [bytes]. *)
Abbreviation bytes := (list byte).

(** Python [str]: a sequence of Unicode code points. *)
Abbreviation pystr := (list N).

(** A bytes literal [b"..."]. *)
Definition b_ (s : string) : bytes := list_byte_of_string s.

(** The text of an ASCII literal ["..."]. *)
Definition s_ (s : string) : pystr := map Byte.to_N (list_byte_of_string s).

Definition byte_of_N (n : N) : byte := default x00 (Byte.of_N n).

(** [sample[a:b]] and [sample[a:]] for non-negative offsets: Python clamps
    both ends to the length, and an inverted range is empty. *)
Definition slice {A} (a b : nat) (l : list A) : list A := take (b - a) (drop a l).
Definition slice_from {A} (a : nat) (l : list A) : list A := drop a l.
Definition slice_to {A} (b : nat) (l : list A) : list A := take b l.

(** [l[i]] for a non-negative index. *)
Definition getitem {A} (l : list A) (i : nat) : Result A := or_raise IndexError (l !! i).

(** [middle_b.startswith(b":")]. *)
Definition startswith_colon (b : bytes) : bool :=
  match b with
  | x3a :: _ => true
  | _ => false
  end.

(** The bytes that [bytes.lstrip()] removes: space, tab, newline, carriage
    return, vertical tab and form feed. *)
Definition is_ascii_space (b : byte) : bool :=
  match b with
  | x20 | x09 | x0a | x0d | x0b | x0c => true
  | _ => false
  end.

Fixpoint lstrip (b : bytes) : bytes :=
  match b with
  | c :: r => if is_ascii_space c then lstrip r else b
  | [] => []
  end.

(** *** UTF-8 *)

Local Open Scope N_scope.

Definition between (lo hi n : N) : bool := (lo <=? n) && (n <=? hi).

Definition is_cont (n : N) : bool := between 0x80 0xBF n.

(** The second byte of a three-byte sequence: no overlong form after [E0],
    no surrogate after [ED]. *)
Definition second3_ok (n0 n1 : N) : bool :=
  if n0 =? 0xE0 then between 0xA0 0xBF n1
  else if n0 =? 0xED then between 0x80 0x9F n1
  else is_cont n1.

(** The second byte of a four-byte sequence: no overlong form after [F0],
    nothing above U+10FFFF after [F4]. *)
Definition second4_ok (n0 n1 : N) : bool :=
  if n0 =? 0xF0 then between 0x90 0xBF n1
  else if n0 =? 0xF4 then between 0x80 0x8F n1
  else is_cont n1.

(** [b.decode("utf-8")] with the default strict error handling: [None]
    stands for [UnicodeDecodeError]. *)
Fixpoint utf8_decode (bs : bytes) : option pystr :=
  match bs with
  | [] => Some []
  | b0 :: r0 =>
    let n0 := Byte.to_N b0 in
    if n0 <? 0x80 then cons n0 <$> utf8_decode r0
    else
      match r0 with
      | [] => None
      | b1 :: r1 =>
        let n1 := Byte.to_N b1 in
        if between 0xC2 0xDF n0 then
          if is_cont n1
          then cons ((n0 - 0xC0) * 64 + (n1 - 0x80)) <$> utf8_decode r1
          else None
        else
          match r1 with
          | [] => None
          | b2 :: r2 =>
            let n2 := Byte.to_N b2 in
            if between 0xE0 0xEF n0 then
              if second3_ok n0 n1 && is_cont n2
              then cons ((n0 - 0xE0) * 4096 + (n1 - 0x80) * 64 + (n2 - 0x80))
                     <$> utf8_decode r2
              else None
            else
              match r2 with
              | [] => None
              | b3 :: r3 =>
                let n3 := Byte.to_N b3 in
                if between 0xF0 0xF4 n0 && second4_ok n0 n1
                   && is_cont n2 && is_cont n3
                then cons ((n0 - 0xF0) * 262144 + (n1 - 0x80) * 4096
                           + (n2 - 0x80) * 64 + (n3 - 0x80))
                       <$> utf8_decode r3
                else None
              end
          end
      end
  end.

(** The UTF-8 form of one code point; surrogates and values above U+10FFFF
    have none. *)
Definition utf8_encode_cp (c : N) : option bytes :=
  if c <? 0x80 then Some [byte_of_N c]
  else if c <? 0x800 then
    Some [byte_of_N (0xC0 + c / 64); byte_of_N (0x80 + c mod 64)]
  else if c <? 0x10000 then
    if between 0xD800 0xDFFF c then None
    else Some [byte_of_N (0xE0 + c / 4096);
               byte_of_N (0x80 + (c / 64) mod 64);
               byte_of_N (0x80 + c mod 64)]
  else if c <? 0x110000 then
    Some [byte_of_N (0xF0 + c / 262144);
          byte_of_N (0x80 + (c / 4096) mod 64);
          byte_of_N (0x80 + (c / 64) mod 64);
          byte_of_N (0x80 + c mod 64)]
  else None.

(** [s.encode("utf-8")]: [None] stands for [UnicodeEncodeError]. *)
Fixpoint utf8_encode (s : pystr) : option bytes :=
  match s with
  | [] => Some []
  | c :: r =>
    match utf8_encode_cp c, utf8_encode r with
    | Some b, Some br => Some (b ++ br)
    | _, _ => None
    end
  end.

Definition decode_utf8 (b : bytes) : Result pystr := or_raise UnicodeDecodeError (utf8_decode b).
Definition encode_utf8 (s : pystr) : Result bytes := or_raise UnicodeEncodeError (utf8_encode s).

(** [pat in s] on text. *)
Fixpoint str_startswith (pat s : pystr) : bool :=
  match pat, s with
  | [], _ => true
  | p :: pat', c :: s' => (p =? c) && str_startswith pat' s'
  | _ :: _, [] => false
  end.

Fixpoint str_contains (pat s : pystr) : bool :=
  str_startswith pat s ||
  match s with
  | [] => false
  | _ :: s' => str_contains pat s'
  end.

Local Close Scope N_scope.

(** ** Syntax-tree nodes *)

(** A tree-sitter [Node] as the code reads it: its [type], its byte range
    and its [parent] ([None] at the root). *)
#[warnings="-register-all"]
Inductive Node : Type :=
  mkNode (type : string) (start_byte end_byte : nat) (parent : option Node).

Definition type (n : Node) : string := let 'mkNode t _ _ _ := n in t.
Definition start_byte (n : Node) : nat := let 'mkNode _ s _ _ := n in s.
Definition end_byte (n : Node) : nat := let 'mkNode _ _ e _ := n in e.
Definition parent (n : Node) : option Node := let 'mkNode _ _ _ p := n in p.

(** ** The collaborators' interfaces *)

(** [numpy.random.RandomState]: the two methods the code calls, each
    returning its draw (or the exception it raises) and the generator's next
    state.  [Rate] is the type of the probabilities handed to [binomial]. *)
Class NpRandom : Type := {
  RandomState : Type;
  Rate : Type;
  rs_choice : list nat -> RandomState -> Result nat * RandomState;
  rs_binomial : Z -> Rate -> RandomState -> Result Z * RandomState
}.

(** The parser and the query: [run_query sample] is
    [QUERY.captures(PARSER.parse(sample).root_node)], the captured nodes with
    their capture names, in the order the query reports them. *)
Class TreeSitter : Type := {
  run_query : bytes -> Result (list (Node * string))
}.

(** The tokenizer: its vocabulary, [decode] (which gives text or bytes) and
    [encode]. *)
Class Tokenizer : Type := {
  vocab : gmap string Z;
  tok_decode : list Z -> Result (pystr + bytes);
  tok_encode : pystr -> Result (list Z)
}.

(** ** The world: generator state and standard output *)

(** What the code prints. *)
Inductive printed : Type :=
  | PrintException (e : exn)
  | PrintFailedSample (decoded_bytes : bytes).

Record World `{NpRandom} : Type := mkWorld {
  rng : RandomState;
  stdout : list printed
}.

(** A computation over the world that returns a value or raises. *)
Definition M `{NpRandom} (A : Type) : Type := World -> Result A * World.

#[export] Instance M_ret `{NpRandom} : MRet M := fun A a w => (Ok a, w).
#[export] Instance M_bind `{NpRandom} : MBind M := fun A B f m w =>
  match m w with
  | (Ok a, w') => f a w'
  | (Raise e, w') => (Raise e, w')
  end.

(** A computation that leaves the world alone. *)
Definition lift `{NpRandom} {A} (r : Result A) : M A := fun w => (r, w).

(** [np_rng.choice(a)]. *)
Definition np_choice `{NpRandom} (a : list nat) : M nat := fun w =>
  let '(r, g) := rs_choice a (rng w) in (r, mkWorld _ g (stdout w)).

(** [np_rng.binomial(n, p)]. *)
Definition np_binomial `{NpRandom} (n : Z) (p : Rate) : M Z := fun w =>
  let '(r, g) := rs_binomial n p (rng w) in (r, mkWorld _ g (stdout w)).

(** [print(...)]. *)
Definition print_ `{NpRandom} (p : printed) : M unit := fun w =>
  (Ok tt, mkWorld _ (rng w) (stdout w ++ [p])).

(** [try: body / except Exception as e: handler e], followed by [cont] on
    the value of [body] when nothing was caught. *)
Definition try_except_Exception `{NpRandom} {A B}
    (body : M A) (handler : exn -> M B) (cont : A -> M B) : M B := fun w =>
  match body w with
  | (Ok a, w') => cont a w'
  | (Raise e, w') => if is_Exception e then handler e w' else (Raise e, w')
  end.

(** The truth value of a Python integer. *)
Definition truthy (z : Z) : bool := negb (z =? 0).

(** ** [get_fim_token_ids] *)

Definition FIM_SUFFIX : string := "<fim_suffix>".
Definition FIM_PREFIX : string := "<fim_prefix>".
Definition FIM_MIDDLE : string := "<fim_middle>".
Definition FIM_PAD : string := "<fim_pad>".

(** [tokenizer.vocab[tok]]. *)
Definition vocab_getitem `{Tokenizer} (tok : string) : Result Z :=
  or_raise KeyError (vocab !! tok).

(** The four ids the function returns. *)
Definition Ids : Type := option Z * option Z * option Z * option Z.

(** The body of the function, under its decorator (Python's
    [get_fim_token_ids.__wrapped__]).  The four lookups run in the order of
    the list, and the first missing key ends them; [except KeyError] then sets
    all four ids to [None]. *)
Definition get_fim_token_ids_wrapped `{Tokenizer} : Result Ids :=
  let body :=
    suffix_tok_id ← vocab_getitem FIM_SUFFIX;
    prefix_tok_id ← vocab_getitem FIM_PREFIX;
    middle_tok_id ← vocab_getitem FIM_MIDDLE;
    pad_tok_id ← vocab_getitem FIM_PAD;
    mret (Some suffix_tok_id, Some prefix_tok_id, Some middle_tok_id, Some pad_tok_id) in
  match body with
  | Ok ids => Ok ids
  | Raise e => if is_KeyError e then Ok (None, None, None, None) else Raise e
  end.

(** The store of [functools.lru_cache(maxsize=None)]: the answers given so
    far, by the key of the argument.  Nothing is ever evicted. *)
Abbreviation Cache := (gmap positive Ids).

(** [get_fim_token_ids(tokenizer)] as decorated.  A tokenizer object is its
    cache key [key] (the class of its hash and equality, its identity for an
    ordinary object; [None] when the object is unhashable) together with its
    present state, the [Tokenizer].  The decorator hashes the argument (a
    [TypeError] when that is impossible), replays the answer stored under its
    key if there is one, and otherwise runs the body and stores what it
    returns; a raised exception stores nothing. *)
Definition get_fim_token_ids (key : option positive) `{Tokenizer} (cache : Cache)
  : Result Ids * Cache :=
  match key with
  | None => (Raise TypeError, cache)
  | Some k =>
    match cache !! k with
    | Some ids => (Ok ids, cache)
    | None =>
      match get_fim_token_ids_wrapped with
      | Ok ids => (Ok ids, <[k := ids]> cache)
      | Raise e => (Raise e, cache)
      end
    end
  end.

(** ** [get_prefix_middle_suffix] *)

Definition is_annotation_type (t : string) : bool :=
  String.eqb t "type_annotation"
  || String.eqb t "opting_type_annotation"
  || String.eqb t "omitting_type_annotation".

(** Checks if any of the parent nodes is an annotation node. *)
Fixpoint is_child_type_annotation (node : Node) : bool :=
  match node with
  | mkNode _ _ _ None => false
  | mkNode _ _ _ (Some p) =>
    if is_annotation_type (type p) then true else is_child_type_annotation p
  end.

Definition contains_url (sample : bytes) (node : Node) : Result bool :=
  string ← decode_utf8 (slice (start_byte node) (end_byte node) sample);
  mret (str_contains (s_ "//") string).

(** [not is_child_type_annotation(node) and not contains_url(node)]: the
    second operand is evaluated only when the first is true. *)
Definition is_splitable (sample : bytes) (node : Node) : Result bool :=
  if negb (is_child_type_annotation node)
  then u ← contains_url sample node; mret (negb u)
  else mret false.

Definition is_capturable (sample : bytes) (node : Node) : Result bool :=
  if negb (is_child_type_annotation node)
  then u ← contains_url sample node; mret (negb u)
  else mret false.

(** [for i, (node, _) in enumerate(captures)], from the list built so far. *)
Fixpoint capturable_loop (sample : bytes) (captures : list (Node * string))
    (captures_no_child : list Node) : Result (list Node) :=
  match captures with
  | [] => mret captures_no_child
  | (node, _) :: rest =>
    c ← is_capturable sample node;
    capturable_loop sample rest
      (if c : bool then captures_no_child ++ [node] else captures_no_child)
  end.

(** [for i, node in enumerate(captures_no_child)], from index [i] on. *)
Fixpoint splittable_loop (sample : bytes) (i : nat) (nodes : list Node)
    (splittable_indices : list nat) : Result (list nat) :=
  match nodes with
  | [] => mret splittable_indices
  | node :: rest =>
    c ← is_splitable sample node;
    splittable_loop sample (S i) rest
      (if c : bool then splittable_indices ++ [i] else splittable_indices)
  end.

(** [for i in range(random_pick_i, l - 1)], over the indices still to come. *)
Fixpoint strip_loop (sample : bytes) (captures_no_child : list Node)
    (range : list nat) (suffix_b : bytes) : Result bytes :=
  match range with
  | [] => mret suffix_b
  | i :: rest =>
    a ← getitem captures_no_child i;
    b ← getitem captures_no_child (i + 1);
    strip_loop sample captures_no_child rest
      (suffix_b ++ slice (end_byte a) (start_byte b) sample)
  end.

(** [range(a, b)]. *)
Definition range (a b : nat) : list nat := seq a (b - a).

(** The suffix, by the outcome of the strip draw. *)
Definition suffix_bytes (sample : bytes) (captures_no_child : list Node)
    (random_pick_i : nat) (strip : bool) : Result bytes :=
  if strip then
    let l := length captures_no_child in
    suffix_b ← strip_loop sample captures_no_child (range random_pick_i (l - 1)) [];
    last ← getitem captures_no_child (l - 1);
    mret (suffix_b ++ slice_from (end_byte last) sample)
  else
    picked ← getitem captures_no_child random_pick_i;
    mret (slice_from (end_byte picked) sample).

(** The prefix and the middle once the leading colon has moved. *)
Definition move_colon (prefix_b middle_b : bytes) : bytes * bytes :=
  if startswith_colon middle_b
  then (prefix_b ++ b_ ": ", lstrip (drop 1 middle_b))
  else (prefix_b, middle_b).

Definition get_prefix_middle_suffix `{NpRandom} `{TreeSitter}
    (sample : bytes) (strip_suffix_rate : Rate)
  : M (option (pystr * pystr * pystr)) :=
  captures ← lift (run_query sample);
  captures_no_child ← lift (capturable_loop sample captures []);
  splittable_indices ← lift (splittable_loop sample 0 captures_no_child []);
  if (length splittable_indices =? 0)%nat then mret None
  else
    random_pick_i ← np_choice splittable_indices;
    picked ← lift (getitem captures_no_child random_pick_i);
    let prefix_b := slice_to (start_byte picked) sample in
    let middle_b := slice (start_byte picked) (end_byte picked) sample in
    let '(prefix_b, middle_b) := move_colon prefix_b middle_b in
    strip ← np_binomial 1 strip_suffix_rate;
    suffix_b ← lift (suffix_bytes sample captures_no_child random_pick_i (truthy strip));
    prefix_str ← lift (decode_utf8 prefix_b);
    middle_str ← lift (decode_utf8 middle_b);
    suffix_str ← lift (decode_utf8 suffix_b);
    mret (Some (prefix_str, middle_str, suffix_str)).

(** ** [permute] *)

(** [decoded_bytes] after the [isinstance] test: text is encoded as UTF-8. *)
Definition as_bytes (decoded : pystr + bytes) : Result bytes :=
  match decoded with
  | inr b => mret b
  | inl s => encode_utf8 s
  end.

(** *** numpy arrays of integers *)

(** The element types that arrays built from Python integers can have. *)
Inductive dtype : Type := int64 | uint64 | float64 | object.

(** An element of an array or of a token list: an exact integer (a Python
    [int], [numpy.int64] or [numpy.uint64]) or a float ([numpy.float64] or a
    Python [float]) whose value is the integer [z]. *)
Inductive scalar : Type :=
  | Int (z : Z)
  | Float (z : Z).

(** The float64 nearest to an integer, ties to the even significand: exact
    below [2^53] in absolute value, and the leading 53 bits, rounded, above. *)
Definition round53 (z : Z) : Z :=
  let a := Z.abs z in
  if a <? 2 ^ 53 then z
  else
    let e := Z.log2 a - 52 in
    let q := a / 2 ^ e in
    let r := a mod 2 ^ e in
    let half := 2 ^ (e - 1) in
    let q' := if r <? half then q
              else if half <? r then q + 1
              else if Z.even q then q else q + 1 in
    Z.sgn z * (q' * 2 ^ e).

(** The type numpy finds for one Python integer. *)
Definition elem_dtype (z : Z) : dtype :=
  if (- 2 ^ 63 <=? z) && (z <? 2 ^ 63) then int64
  else if (0 <=? z) && (z <? 2 ^ 64) then uint64
  else object.

(** Type promotion. *)
Definition promote (d1 d2 : dtype) : dtype :=
  match d1, d2 with
  | object, _ | _, object => object
  | int64, int64 => int64
  | uint64, uint64 => uint64
  | _, _ => float64
  end.

(** The type of [np.array(l)] for a list of Python integers; the empty list
    gives numpy's default, float64. *)
Definition discover (l : list Z) : dtype :=
  match l with
  | [] => float64
  | z :: r => fold_left (fun d z' => promote d (elem_dtype z')) r (elem_dtype z)
  end.

(** An element converted to type [d]. *)
Definition cast (d : dtype) (x : scalar) : scalar :=
  match d, x with
  | float64, Int z => Float (round53 z)
  | _, _ => x
  end.

(** A one-dimensional array. *)
Record ndarray : Type := mkArray {
  arr_dtype : dtype;
  arr_items : list scalar
}.

(** [np.array(l)], also the conversion [np.concatenate] applies to a list
    among its arguments. *)
Definition np_array (l : list Z) : ndarray :=
  mkArray (discover l) (map (fun z => cast (discover l) (Int z)) l).

(** [np.concatenate(arrays)]: the elements in order, each converted to the
    promotion of the arrays' types; no arrays is a [ValueError]. *)
Definition np_concatenate (arrays : list ndarray) : Result ndarray :=
  match arrays with
  | [] => Raise ValueError
  | a :: rest =>
    let d := fold_left (fun d a' => promote d (arr_dtype a')) rest (arr_dtype a) in
    Ok (mkArray d (concat (map (fun a' => map (cast d) (arr_items a')) arrays)))
  end.

(** [list(a)] on an array. *)
Definition tolist (a : ndarray) : list scalar := arr_items a.

(** [list(sample)] on the list of Python integers that came in. *)
Definition list_of_tokens (sample : list Z) : list scalar := map Int sample.

(** The two orderings. *)
Definition spm_sample (suffix_tok_id prefix_tok_id middle_tok_id : Z)
    (prefix middle suffix : ndarray) : Result ndarray :=
  np_concatenate
    [np_array [prefix_tok_id; suffix_tok_id];
     suffix;
     np_array [middle_tok_id];
     prefix;
     middle].

Definition psm_sample (suffix_tok_id prefix_tok_id middle_tok_id : Z)
    (prefix middle suffix : ndarray) : Result ndarray :=
  np_concatenate
    [np_array [prefix_tok_id];
     prefix;
     np_array [suffix_tok_id];
     suffix;
     np_array [middle_tok_id];
     middle].

(** The first component of the returned pair ([None] or the new sample as a
    list); the second, [np_rng], is the generator of the world afterwards. *)
Definition permute `{NpRandom} `{TreeSitter} `{Tokenizer}
    (sample : list Z) (suffix_tok_id prefix_tok_id middle_tok_id : Z)
    (fim_rate fim_spm_rate strip_suffix_rate : Rate)
  : M (option (list scalar)) :=
  fim ← np_binomial 1 fim_rate;
  if truthy fim then
    decoded ← lift (tok_decode sample);
    decoded_bytes ← lift (as_bytes decoded);
    try_except_Exception
      (get_prefix_middle_suffix decoded_bytes strip_suffix_rate)
      (fun e =>
         _ ← print_ (PrintException e);
         _ ← print_ (PrintFailedSample decoded_bytes);
         mret None)
      (fun res =>
         match res with
         | None => mret None
         | Some (prefix_str, middle_str, suffix_str) =>
           prefix ← lift (np_array <$> tok_encode prefix_str);
           middle ← lift (np_array <$> tok_encode middle_str);
           suffix ← lift (np_array <$> tok_encode suffix_str);
           spm ← np_binomial 1 fim_spm_rate;
           new_sample ←
             lift (if truthy spm
                   then spm_sample suffix_tok_id prefix_tok_id middle_tok_id
                          prefix middle suffix
                   else psm_sample suffix_tok_id prefix_tok_id middle_tok_id
                          prefix middle suffix);
           mret (Some (tolist new_sample))
         end)
  else
    mret (Some (list_of_tokens sample)).

(** ** Implementations of the interfaces, for running the model *)

(** A generator that replays a tape of percentiles: each draw reads the head
    [x] of the tape as the uniform number [(x mod 100) / 100] and drops it;
    an exhausted tape reads 0. *)
Definition tape_uniform (g : list nat) : Q := Z.of_nat (hd 0%nat g mod 100) # 100.

(** [choice] raises [ValueError] on an empty sequence, as numpy does. *)
Definition tape_choice (a : list nat) (g : list nat) : Result nat * list nat :=
  match a with
  | [] => (Raise ValueError, g)
  | _ :: _ => (or_raise IndexError (a !! (hd 0%nat g mod length a)%nat), tl g)
  end.

(** The number of successes among [n] draws. *)
Fixpoint tape_trials (n : nat) (p : Q) (g : list nat) : Z * list nat :=
  match n with
  | O => (0, g)
  | S n' =>
    let hit := if Qle_bool p (tape_uniform g) then 0 else 1 in
    let '(k, g') := tape_trials n' p (tl g) in
    (hit + k, g')
  end.

(** [binomial] raises [ValueError] unless [0 <= p <= 1] and [0 <= n]. *)
Definition tape_binomial (n : Z) (p : Q) (g : list nat) : Result Z * list nat :=
  if Qle_bool 0 p && Qle_bool p 1 && (0 <=? n)
  then let '(k, g') := tape_trials (Z.to_nat n) p g in (Ok k, g')
  else (Raise ValueError, g).

Definition tape_rng : NpRandom :=
  {| RandomState := list nat; Rate := Q;
     rs_choice := tape_choice; rs_binomial := tape_binomial |}.

(** A parser stub that answers with the captures of the sample under study. *)
Definition parser_of (captures : list (Node * string)) : TreeSitter :=
  {| run_query := fun _ => Ok captures |}.

(** A byte-level tokenizer: token [t] below 256 is the byte [t], [decode]
    builds [bytes(sample)] (a [ValueError] when a token is not a byte), and
    [encode] lists the UTF-8 bytes of the text. *)
Definition is_byte_token (t : Z) : bool := (0 <=? t) && (t <? 256).

Definition byte_decode (sample : list Z) : Result (pystr + bytes) :=
  if forallb is_byte_token sample
  then Ok (inr (map (fun t => byte_of_N (Z.to_N t)) sample))
  else Raise ValueError.

Definition byte_encode (s : pystr) : Result (list Z) :=
  b ← encode_utf8 s; mret (map (fun c => Z.of_N (Byte.to_N c)) b).

Definition byte_tokenizer (v : gmap string Z) : Tokenizer :=
  {| vocab := v; tok_decode := byte_decode; tok_encode := byte_encode |}.

(** The byte tokens of an ASCII literal. *)
Definition t_ (s : string) : list Z := map (fun c => Z.of_N (Byte.to_N c)) (b_ s).

Definition full_vocab : gmap string Z :=
  <[FIM_PREFIX := 256]> (<[FIM_MIDDLE := 257]> (<[FIM_SUFFIX := 258]> (<[FIM_PAD := 259]> ∅))).

Definition vocab_without_pad : gmap string Z :=
  <[FIM_PREFIX := 256]> (<[FIM_MIDDLE := 257]> (<[FIM_SUFFIX := 258]> ∅)).

Definition world0 (tape : list nat) : @World tape_rng := @mkWorld tape_rng tape [].

(** *** Sample programs and the annotation nodes tree-sitter captures in them *)

(** An inner node of the tree, by its type and its parent. *)
Definition inner (t : string) (s e : nat) (p : Node) : Node := mkNode t s e (Some p).

(** A [type_annotation] node, and its capture by
    [(type_annotation) @annotation]. *)
Definition annotation (s e : nat) (p : Node) : Node := inner "type_annotation" s e p.
Definition captured (node : Node) : Node * string := (node, "annotation"%string).

(** The scenario of the specification:
    [interface Foo { foo(x: number, y: number): number; }]. *)
Definition foo_sample : bytes := b_ "interface Foo { foo(x: number, y: number): number; }".

Definition foo_method : Node :=
  let program := mkNode "program" 0 52 None in
  let decl := inner "interface_declaration" 0 52 program in
  let body := inner "interface_body" 14 52 decl in
  inner "method_signature" 16 49 body.
Definition foo_params : Node := inner "formal_parameters" 19 41 foo_method.
Definition foo_x : Node := annotation 21 29 (inner "required_parameter" 20 29 foo_params).
Definition foo_y : Node := annotation 32 40 (inner "required_parameter" 31 40 foo_params).
Definition foo_ret : Node := annotation 41 49 foo_method.

Definition foo_captures : list (Node * string) :=
  [captured foo_x; captured foo_y; captured foo_ret].

(** [let x:number = 1]: an annotation with no space after its colon. *)
Definition tight_sample : bytes := b_ "let x:number = 1".

Definition tight_x : Node :=
  let program := mkNode "program" 0 16 None in
  let decl := inner "lexical_declaration" 0 16 program in
  annotation 5 12 (inner "variable_declarator" 4 16 decl).

Definition tight_captures : list (Node * string) := [captured tight_x].

(** [let a: A = 0; let o = {k: B}; let b: B = 0]: the text [: B] of the
    second annotation also occurs in the object literal before it. *)
Definition literal_sample : bytes := b_ "let a: A = 0; let o = {k: B}; let b: B = 0".

Definition literal_program : Node := mkNode "program" 0 42 None.
Definition literal_a : Node :=
  let decl := inner "lexical_declaration" 0 13 literal_program in
  annotation 5 8 (inner "variable_declarator" 4 12 decl).
Definition literal_b : Node :=
  let decl := inner "lexical_declaration" 30 42 literal_program in
  annotation 35 38 (inner "variable_declarator" 34 42 decl).

Definition literal_captures : list (Node * string) :=
  [captured literal_a; captured literal_b].

(** [let a: A = 0; let u: 'x//y' = 'x//y'; let b: B = 0]: the second of the
    three annotations contains [//]. *)
Definition url_sample : bytes := b_ "let a: A = 0; let u: 'x//y' = 'x//y'; let b: B = 0".

Definition url_program : Node := mkNode "program" 0 50 None.
Definition url_a : Node :=
  let decl := inner "lexical_declaration" 0 13 url_program in
  annotation 5 8 (inner "variable_declarator" 4 12 decl).
Definition url_u : Node :=
  let decl := inner "lexical_declaration" 14 37 url_program in
  annotation 19 27 (inner "variable_declarator" 18 36 decl).
Definition url_b : Node :=
  let decl := inner "lexical_declaration" 38 50 url_program in
  annotation 43 46 (inner "variable_declarator" 42 50 decl).

Definition url_captures : list (Node * string) :=
  [captured url_a; captured url_u; captured url_b].

(** [let x = 1]: no annotation at all. *)
Definition plain_sample : bytes := b_ "let x = 1".

(** [let u: 'x//y' = 1]: the only annotation contains [//]. *)
Definition only_url_sample : bytes := b_ "let u: 'x//y' = 1".

Definition only_url_u : Node :=
  let program := mkNode "program" 0 17 None in
  let decl := inner "lexical_declaration" 0 17 program in
  annotation 5 13 (inner "variable_declarator" 4 17 decl).

Definition only_url_captures : list (Node * string) := [captured only_url_u].

(** [let x: ] followed by the byte [ff], which no UTF-8 text contains, and
    [ = 1]; the annotation covers the colon, the space and that byte. *)
Definition undecodable_sample : bytes := b_ "let x: " ++ [xff] ++ b_ " = 1".

Definition undecodable_x : Node :=
  let program := mkNode "program" 0 12 None in
  let decl := inner "lexical_declaration" 0 12 program in
  annotation 5 8 (inner "variable_declarator" 4 12 decl).

Definition undecodable_captures : list (Node * string) := [captured undecodable_x].


Definition eof_x : Node :=
  let program := mkNode "program" 0 13 None in
  let decl := inner "lexical_declaration" 0 13 program in
  annotation 5 13 (inner "variable_declarator" 4 13 decl).

Definition eof_captures : list (Node * string) := [captured eof_x].

Definition eof_tokens : list Z := t_ "let x: number".

(** [let o: {a: number} = x; let u: 'x//y' = 1; let b: B = 0]: the
    annotation of [a] lies inside the annotation of [o], and the annotation of
    [u] contains [//]. *)
Definition nested_sample : bytes :=
  b_ "let o: {a: number} = x; let u: 'x//y' = 1; let b: B = 0".

Definition nested_program : Node := mkNode "program" 0 55 None.
Definition nested_o : Node :=
  let decl := inner "lexical_declaration" 0 23 nested_program in
  annotation 5 18 (inner "variable_declarator" 4 22 decl).
Definition nested_a : Node :=
  annotation 9 17 (inner "property_signature" 8 17 (inner "object_type" 7 18 nested_o)).
Definition nested_u : Node :=
  let decl := inner "lexical_declaration" 24 42 nested_program in
  annotation 29 37 (inner "variable_declarator" 28 41 decl).
Definition nested_b : Node :=
  let decl := inner "lexical_declaration" 43 55 nested_program in
  annotation 48 51 (inner "variable_declarator" 47 55 decl).

Definition nested_captures : list (Node * string) :=
  [captured nested_o; captured nested_a; captured nested_u; captured nested_b].

(** The samples as the byte tokenizer's token sequences. *)
Definition foo_tokens : list Z := t_ "interface Foo { foo(x: number, y: number): number; }".
Definition plain_tokens : list Z := t_ "let x = 1".

Definition undecodable_tokens : list Z :=
  map (fun c => Z.of_N (Byte.to_N c)) undecodable_sample.

(** ** Notions used to state the properties *)

(** A captured node is eligible when no ancestor is an annotation node and
    its decoded source text does not contain [//]. *)
Definition eligible (sample : bytes) (node : Node) : bool :=
  negb (is_child_type_annotation node)
  && match contains_url sample node with
     | Ok false => true
     | _ => false
     end.

(** What [get_prefix_middle_suffix] returns once the candidates, the picked
    index and the strip draw are known: the part of its body that does not
    touch the generator. *)
Definition carve (sample : bytes) (captures_no_child : list Node)
    (random_pick_i : nat) (picked : Node) (strip : bool)
  : Result (pystr * pystr * pystr) :=
  let '(prefix_b, middle_b) :=
    move_colon (slice_to (start_byte picked) sample)
               (slice (start_byte picked) (end_byte picked) sample) in
  suffix_b ← suffix_bytes sample captures_no_child random_pick_i strip;
  prefix_str ← decode_utf8 prefix_b;
  middle_str ← decode_utf8 middle_b;
  suffix_str ← decode_utf8 suffix_b;
  mret (prefix_str, middle_str, suffix_str).

(** The gap texts of the specification, for the candidates from the selected
    one on: from each span's end to the next span's start, and from the last
    span's end to the end of the sample. *)
Fixpoint gap_texts (sample : bytes) (spans : list Node) : list bytes :=
  match spans with
  | [] => []
  | a :: rest =>
    match rest with
    | [] => [slice_from (end_byte a) sample]
    | b :: _ => slice (end_byte a) (start_byte b) sample :: gap_texts sample rest
    end
  end.

(** The selected span with its leading colon and the whitespace after it
    replaced by a colon and one space, as the prefix and the middle carry
    it. *)
Definition colon_normalized (span : bytes) : bytes :=
  if startswith_colon span then b_ ": " ++ lstrip (drop 1 span) else span.

(** [x] occurs in [l] as a contiguous run. *)
Definition occurs_in {A} (x l : list A) : Prop := exists l1 l2, l = l1 ++ x ++ l2.

(** An id that numpy stores as an int64. *)
Definition fits_int64 (z : Z) : Prop := - 2 ^ 63 <= z < 2 ^ 63.

(** The type of the concatenation when all ids fit int64: float64 as soon as
    one of the three encodings is empty, int64 otherwise. *)
Definition segments_dtype (prefix middle suffix : list Z) : dtype :=
  match prefix, middle, suffix with
  | _ :: _, _ :: _, _ :: _ => int64
  | _, _, _ => float64
  end.

(** The id [z] as an element of an array of type [d]. *)
Definition as_dtype (d : dtype) (z : Z) : scalar := cast d (Int z).


(** A call of [get_fim_token_ids]: the key of the tokenizer object and the
    state the object was in. *)
Definition call : Type := option positive * Tokenizer.

(** The cache after a series of calls. *)
Fixpoint cache_after (history : list call) (cache : Cache) : Cache :=
  match history with
  | [] => cache
  | (key, T) :: rest => cache_after rest (snd (@get_fim_token_ids key T cache))
  end.

(** The state in which the tokenizer with key [k] was first passed to the
    function: at its first call in the history, or [now] when the history has
    none. *)
Fixpoint first_seen (k : positive) (history : list call) (now : Tokenizer) : Tokenizer :=
  match history with
  | [] => now
  | (key, T) :: rest =>
    if decide (key = Some k) then T else first_seen k rest now
  end.

(** The proper ancestors of a node, nearest first: the nodes the loop of
    [is_child_type_annotation] visits. *)
Fixpoint ancestors (node : Node) : list Node :=
  match node with
  | mkNode _ _ _ None => []
  | mkNode _ _ _ (Some p) => p :: ancestors p
  end.

(** The byte [/]. *)
Definition is_slash (c : byte) : bool :=
  match c with
  | x2f => true
  | _ => false
  end.

(** [b"//" in b] on bytes. *)
Fixpoint has_slashes (b : bytes) : bool :=
  match b with
  | [] => false
  | c :: r =>
    match c, r with
    | x2f, x2f :: _ => true
    | _, _ => has_slashes r
    end
  end.

(** Spans in source order: each span is a range, and each ends before the
    next one starts. *)
Fixpoint in_source_order (spans : list Node) : Prop :=
  match spans with
  | [] => True
  | a :: rest =>
    (start_byte a <= end_byte a)%nat /\
    match rest with
    | [] => True
    | b :: _ => (end_byte a <= start_byte b)%nat
    end /\
    in_source_order rest
  end.

(** The texts of the later spans, without the gaps: what the strip branch
    leaves out of the suffix. *)
Definition later_span_texts (sample : bytes) (spans : list Node) : list bytes :=
  map (fun b => slice (start_byte b) (end_byte b) sample) (tail spans).

(** The rest of the sample after the first span, cut at the span borders:
    gap, span, gap, span, ..., final gap. *)
Fixpoint gaps_and_spans (sample : bytes) (spans : list Node) : list bytes :=
  match spans with
  | [] => []
  | a :: rest =>
    match rest with
    | [] => [slice_from (end_byte a) sample]
    | b :: _ =>
      slice (end_byte a) (start_byte b) sample
      :: slice (start_byte b) (end_byte b) sample
      :: gaps_and_spans sample rest
    end
  end.

(** The three annotation node types. *)
Definition annotation_types : list string :=
  ["type_annotation"; "opting_type_annotation"; "omitting_type_annotation"]%string.

(** A node is nested in an annotation when one of its proper ancestors, at
    any distance, has one of the three annotation types. *)
Definition nested_in_annotation (node : Node) : Prop :=
  exists a, In a (ancestors node) /\ In (type a) annotation_types.

(** The source text of a node has no [//]: its byte range is UTF-8 text, and
    the two characters occur nowhere in that text. *)
Definition text_without_slashes (sample : bytes) (node : Node) : Prop :=
  exists text,
    utf8_decode (slice (start_byte node) (end_byte node) sample) = Some text /\
    ~ occurs_in (s_ "//") text.

(** Gaps and span texts in turn: gap, text, gap, text, ..., gap. *)
Fixpoint interleave (gaps texts : list bytes) : bytes :=
  match gaps with
  | [] => []
  | g :: gaps' =>
    match texts with
    | [] => g ++ concat gaps'
    | t :: texts' => g ++ t ++ interleave gaps' texts'
    end
  end.

(** * Properties *)

(** ** Results *)

Ltac result_simpl :=
  unfold mret, mbind, fmap, Result_ret, Result_bind, Result_fmap in *; simpl in *.

Lemma Result_bind_Ok_inv {A B} (m : Result A) (f : A -> Result B) (b : B) :
  m ≫= f = Ok b -> exists a, m = Ok a /\ f a = Ok b.
Proof. destruct m as [a|e]; [eauto | discriminate]. Qed.

Lemma or_raise_Ok {A} (e : exn) (o : option A) (a : A) :
  or_raise e o = Ok a <-> o = Some a.
Proof. destruct o; simpl; split; congruence. Qed.

Lemma getitem_Ok {A} (l : list A) (i : nat) (a : A) :
  getitem l i = Ok a <-> l !! i = Some a.
Proof. apply or_raise_Ok. Qed.

(** ** UTF-8 *)

(** Decoding stops at sequence boundaries: the text of [a ++ b] is the text
    of [a] followed by the text of [b]. *)
Lemma utf8_decode_app (a : bytes) :
  forall x, utf8_decode a = Some x ->
  forall b, utf8_decode (a ++ b) = (x ++.) <$> utf8_decode b.
Proof.
  induction a as [a IH] using (induction_ltof1 _ (@length byte)).
  unfold ltof in IH. intros x Hx b.
  destruct a as [|b0 r0].
  { injection Hx as <-. simpl. by destruct (utf8_decode b). }
  cbn [utf8_decode app] in Hx |- *.
  destruct (Byte.to_N b0 <? 128)%N.
  { destruct (utf8_decode r0) as [y|] eqn:Hy; [|discriminate].
    injection Hx as <-. rewrite (IH r0 ltac:(simpl; lia) y Hy b).
    by destruct (utf8_decode b). }
  destruct r0 as [|b1 r1]; [discriminate|]. cbn [app].
  destruct (between 194 223 (Byte.to_N b0)).
  { destruct (is_cont (Byte.to_N b1)); [|discriminate].
    destruct (utf8_decode r1) as [y|] eqn:Hy; [|discriminate].
    injection Hx as <-. rewrite (IH r1 ltac:(simpl; lia) y Hy b).
    by destruct (utf8_decode b). }
  destruct r1 as [|b2 r2]; [discriminate|]. cbn [app].
  destruct (between 224 239 (Byte.to_N b0)).
  { destruct (second3_ok (Byte.to_N b0) (Byte.to_N b1) && is_cont (Byte.to_N b2));
      [|discriminate].
    destruct (utf8_decode r2) as [y|] eqn:Hy; [|discriminate].
    injection Hx as <-. rewrite (IH r2 ltac:(simpl; lia) y Hy b).
    by destruct (utf8_decode b). }
  destruct r2 as [|b3 r3]; [discriminate|]. cbn [app].
  match goal with |- context [if ?c then _ else _] => destruct c end; [|discriminate].
  destruct (utf8_decode r3) as [y|] eqn:Hy; [|discriminate].
  injection Hx as <-. rewrite (IH r3 ltac:(simpl; lia) y Hy b).
  by destruct (utf8_decode b).
Qed.

Lemma utf8_decode_app3 (a b c : bytes) (x y z : pystr) :
  utf8_decode a = Some x -> utf8_decode b = Some y -> utf8_decode c = Some z ->
  utf8_decode (a ++ b ++ c) = Some (x ++ y ++ z).
Proof.
  intros Ha Hb Hc.
  rewrite (utf8_decode_app a x Ha), (utf8_decode_app b y Hb), Hc. reflexivity.
Qed.

Lemma byte_of_to_N (b : byte) : byte_of_N (Byte.to_N b) = b.
Proof. unfold byte_of_N. by rewrite Byte.of_to_N. Qed.

Ltac bool_facts :=
  repeat match goal with
    | _ => progress unfold is_cont, second3_ok, second4_ok, between in *
    | H : _ && _ = true |- _ => apply andb_prop in H; destruct H
    | H : context [if ?c then _ else _] |- _ => destruct c eqn:?
    | H : (_ <=? _)%N = true |- _ => apply N.leb_le in H
    | H : (_ <=? _)%N = false |- _ => apply N.leb_gt in H
    | H : (_ <? _)%N = true |- _ => apply N.ltb_lt in H
    | H : (_ <? _)%N = false |- _ => apply N.ltb_ge in H
    | H : (_ =? _)%N = true |- _ => apply N.eqb_eq in H
    | H : (_ =? _)%N = false |- _ => apply N.eqb_neq in H
    end.

Ltac divmod_lia := zify; Z.to_euclidean_division_equations; lia.

Ltac pick_branch :=
  repeat match goal with
    | |- context [(?a <? ?b)%N] =>
      first [ replace (a <? b)%N with true by (symmetry; apply N.ltb_lt; lia)
            | replace (a <? b)%N with false by (symmetry; apply N.ltb_ge; lia) ]
    | |- context [(?a <=? ?b)%N] =>
      first [ replace (a <=? b)%N with true by (symmetry; apply N.leb_le; lia)
            | replace (a <=? b)%N with false by (symmetry; apply N.leb_gt; lia) ]
    end; cbn [andb orb].

Ltac same_byte :=
  match goal with
  | |- byte_of_N ?n = ?b =>
    (replace n with (Byte.to_N b) by divmod_lia); apply byte_of_to_N
  end.

Lemma utf8_encode_cp_1 (b0 : byte) :
  (Byte.to_N b0 <? 128)%N = true ->
  utf8_encode_cp (Byte.to_N b0) = Some [b0].
Proof.
  intros H. unfold utf8_encode_cp. rewrite H. by rewrite byte_of_to_N.
Qed.

Lemma utf8_encode_cp_2 (b0 b1 : byte) :
  between 194 223 (Byte.to_N b0) = true ->
  is_cont (Byte.to_N b1) = true ->
  utf8_encode_cp ((Byte.to_N b0 - 192) * 64 + (Byte.to_N b1 - 128)) = Some [b0; b1].
Proof.
  intros H0 H1. bool_facts. unfold utf8_encode_cp, between.
  pick_branch. repeat f_equal; same_byte.
Qed.

Lemma utf8_encode_cp_3 (b0 b1 b2 : byte) :
  between 224 239 (Byte.to_N b0) = true ->
  second3_ok (Byte.to_N b0) (Byte.to_N b1) && is_cont (Byte.to_N b2) = true ->
  utf8_encode_cp ((Byte.to_N b0 - 224) * 4096 + (Byte.to_N b1 - 128) * 64
                  + (Byte.to_N b2 - 128)) = Some [b0; b1; b2].
Proof.
  intros H0 H1. destruct (N.le_gt_cases (Byte.to_N b0) 236);
    bool_facts; try (exfalso; lia); unfold utf8_encode_cp, between;
    pick_branch; repeat f_equal; same_byte.
Qed.

Lemma utf8_encode_cp_4 (b0 b1 b2 b3 : byte) :
  between 240 244 (Byte.to_N b0) && second4_ok (Byte.to_N b0) (Byte.to_N b1)
    && is_cont (Byte.to_N b2) && is_cont (Byte.to_N b3) = true ->
  utf8_encode_cp ((Byte.to_N b0 - 240) * 262144 + (Byte.to_N b1 - 128) * 4096
                  + (Byte.to_N b2 - 128) * 64 + (Byte.to_N b3 - 128))
  = Some [b0; b1; b2; b3].
Proof.
  intros H0. bool_facts; try (exfalso; lia); unfold utf8_encode_cp, between;
    pick_branch; repeat f_equal; same_byte.
Qed.

(** Strict decoding is injective: encoding the decoded text gives the bytes
    back. *)
Lemma utf8_encode_decode (b : bytes) :
  forall s, utf8_decode b = Some s -> utf8_encode s = Some b.
Proof.
  induction b as [b IH] using (induction_ltof1 _ (@length byte)).
  unfold ltof in IH. intros s Hs.
  destruct b as [|b0 r0]; [by injection Hs as <-|].
  cbn [utf8_decode] in Hs.
  destruct (Byte.to_N b0 <? 128)%N eqn:H1.
  { destruct (utf8_decode r0) as [y|] eqn:Hy; [|discriminate].
    injection Hs as <-. cbn [utf8_encode].
    by rewrite (utf8_encode_cp_1 b0 H1), (IH r0 ltac:(simpl; lia) y Hy). }
  destruct r0 as [|b1 r1]; [discriminate|].
  destruct (between 194 223 (Byte.to_N b0)) eqn:H2.
  { destruct (is_cont (Byte.to_N b1)) eqn:Hc; [|discriminate].
    destruct (utf8_decode r1) as [y|] eqn:Hy; [|discriminate].
    injection Hs as <-. cbn [utf8_encode].
    by rewrite (utf8_encode_cp_2 b0 b1 H2 Hc), (IH r1 ltac:(simpl; lia) y Hy). }
  destruct r1 as [|b2 r2]; [discriminate|].
  destruct (between 224 239 (Byte.to_N b0)) eqn:H3.
  { destruct (second3_ok (Byte.to_N b0) (Byte.to_N b1) && is_cont (Byte.to_N b2))
      eqn:Hc; [|discriminate].
    destruct (utf8_decode r2) as [y|] eqn:Hy; [|discriminate].
    injection Hs as <-. cbn [utf8_encode].
    by rewrite (utf8_encode_cp_3 b0 b1 b2 H3 Hc), (IH r2 ltac:(simpl; lia) y Hy). }
  destruct r2 as [|b3 r3]; [discriminate|].
  match type of Hs with context [if ?c then _ else _] => destruct c eqn:Hc end;
    [|discriminate].
  destruct (utf8_decode r3) as [y|] eqn:Hy; [|discriminate].
  injection Hs as <-. cbn [utf8_encode].
  by rewrite (utf8_encode_cp_4 b0 b1 b2 b3 Hc), (IH r3 ltac:(simpl; lia) y Hy).
Qed.

(** ** Slices *)

Lemma slice_split {A} (a b : nat) (l : list A) :
  (a <= b)%nat -> slice_to a l ++ slice a b l ++ slice_from b l = l.
Proof.
  intros Hab. unfold slice_to, slice, slice_from.
  replace b with (a + (b - a))%nat at 2 by lia.
  rewrite <- drop_drop, take_drop, take_drop. reflexivity.
Qed.

(** A range inside a slice is cut out of the slice as it is. *)
Lemma slice_inside {A} (a b c d : nat) (l : list A) :
  (a <= c)%nat -> (c <= d)%nat -> (d <= b)%nat ->
  slice a b l = slice a c l ++ slice c d l ++ slice d b l.
Proof.
  intros Hac Hcd Hdb. unfold slice.
  assert (Hc : drop c l = drop (c - a) (drop a l)).
  { rewrite drop_drop. f_equal. lia. }
  assert (Hd : drop d l = drop (d - c) (drop (c - a) (drop a l))).
  { rewrite !drop_drop. f_equal. lia. }
  rewrite Hc, Hd.
  replace (b - a)%nat with ((c - a) + ((d - c) + (b - d)))%nat by lia.
  by rewrite <- !take_take_drop.
Qed.

(** ** The candidate list *)

(** Induction along the parent chain. *)
Fixpoint Node_parent_ind (P : Node -> Prop)
    (Hroot : forall t s e, P (mkNode t s e None))
    (Hstep : forall t s e p, P p -> P (mkNode t s e (Some p)))
    (node : Node) : P node :=
  match node with
  | mkNode t s e None => Hroot t s e
  | mkNode t s e (Some p) => Hstep t s e p (Node_parent_ind P Hroot Hstep p)
  end.

Lemma is_annotation_type_spec (t : string) :
  is_annotation_type t = true <->
  t = "type_annotation"%string \/ t = "opting_type_annotation"%string
  \/ t = "omitting_type_annotation"%string.
Proof.
  unfold is_annotation_type. rewrite !orb_true_iff, !String.eqb_eq. tauto.
Qed.

(** The loop over the parents finds exactly the nested nodes. *)
Lemma is_child_type_annotation_nested (node : Node) :
  is_child_type_annotation node = true <-> nested_in_annotation node.
Proof.
  unfold nested_in_annotation, annotation_types.
  induction node as [t s e|t s e p IH] using Node_parent_ind; simpl.
  - split; [discriminate | intros (a & [] & _)].
  - destruct (is_annotation_type (type p)) eqn:Hp.
    + split; [|done]. intros _. exists p. split; [by left|].
      apply is_annotation_type_spec in Hp. simpl.
      destruct Hp as [Hp|[Hp|Hp]]; rewrite Hp; auto.
    + rewrite IH. split.
      * intros (a & Hin & Ha). exists a. split; [by right | done].
      * intros (a & [<-|Hin] & Ha); [|by exists a].
        assert (is_annotation_type (type p) = true)
          by (apply is_annotation_type_spec; simpl in Ha;
              destruct Ha as [Ha|[Ha|[Ha|[]]]]; auto).
        congruence.
Qed.

Lemma str_startswith_spec (pat s : pystr) :
  str_startswith pat s = true <-> exists r, s = pat ++ r.
Proof.
  revert s. induction pat as [|p pat IH]; intros s; simpl.
  - split; [by exists s | done].
  - destruct s as [|c s]; [split; [discriminate | intros (r & ?); discriminate]|].
    rewrite andb_true_iff, N.eqb_eq, IH. split.
    + intros (-> & r & ->). by exists r.
    + intros (r & Heq). injection Heq as -> ->. split; [done | by exists r].
Qed.

(** [pat in s] holds exactly when [pat] occurs in [s]. *)
Lemma str_contains_spec (pat s : pystr) :
  str_contains pat s = true <-> occurs_in pat s.
Proof.
  unfold occurs_in. induction s as [|c s IH].
  - simpl. rewrite orb_false_r, str_startswith_spec. split.
    + intros (r & Heq). by exists [], r.
    + intros (l1 & l2 & Heq). destruct l1; [by exists l2 | discriminate].
  - cbn [str_contains]. rewrite orb_true_iff, IH, str_startswith_spec. split.
    + intros [(r & ->)|(l1 & l2 & ->)]; [by exists [], r | by exists (c :: l1), l2].
    + intros (l1 & l2 & Heq). destruct l1 as [|c' l1].
      * left. by exists l2.
      * right. injection Heq as -> ->. by exists l1, l2.
Qed.

(** The eligibility the loops test, in terms of the tree and the text. *)
Lemma eligible_meaning (sample : bytes) (node : Node) :
  eligible sample node = true <->
  ~ nested_in_annotation node /\ text_without_slashes sample node.
Proof.
  unfold eligible, text_without_slashes, contains_url, decode_utf8.
  rewrite <- is_child_type_annotation_nested.
  destruct (is_child_type_annotation node); simpl.
  - split; [discriminate | intros [Hn _]; by destruct Hn].
  - destruct (utf8_decode _) as [text|]; result_simpl.
    + destruct (str_contains (s_ "//") text) eqn:Hc.
      * split; [discriminate|]. intros (_ & text' & Heq & Hno).
        injection Heq as <-. destruct Hno. by apply str_contains_spec.
      * split; [|done]. intros _. split; [discriminate|].
        exists text. split; [done|]. intros Hocc.
        apply str_contains_spec in Hocc. congruence.
    + split; [discriminate | intros (_ & text' & ? & _); discriminate].
Qed.


Lemma is_capturable_Ok (sample : bytes) (node : Node) (c : bool) :
  is_capturable sample node = Ok c -> c = eligible sample node.
Proof.
  unfold is_capturable, eligible.
  destruct (is_child_type_annotation node); result_simpl; [congruence|].
  destruct (contains_url sample node) as [[]|]; simpl; congruence.
Qed.

Lemma is_splitable_eligible (sample : bytes) (node : Node) :
  eligible sample node = true -> is_splitable sample node = Ok true.
Proof.
  unfold is_splitable, eligible.
  destruct (is_child_type_annotation node); result_simpl; [congruence|].
  destruct (contains_url sample node) as [[]|]; simpl; congruence.
Qed.

Lemma eligible_spec (sample : bytes) (node : Node) :
  eligible sample node = true <->
  is_child_type_annotation node = false /\ contains_url sample node = Ok false.
Proof.
  unfold eligible.
  destruct (is_child_type_annotation node), (contains_url sample node) as [[]|];
    simpl; split; intros; try tauto; try congruence; destruct_and?; congruence.
Qed.

(** The first loop keeps exactly the eligible captures, in their order. *)
Lemma capturable_loop_spec (sample : bytes) (captures : list (Node * string)) :
  forall acc cands,
  capturable_loop sample captures acc = Ok cands ->
  cands = acc ++ List.filter (eligible sample) (map fst captures).
Proof.
  induction captures as [|[node name] rest IH]; intros acc cands Hrun; simpl in *.
  - injection Hrun as <-. by rewrite app_nil_r.
  - apply Result_bind_Ok_inv in Hrun as (c & Hc & Hrun).
    apply is_capturable_Ok in Hc. subst c.
    apply IH in Hrun. subst cands.
    destruct (eligible sample node); [by rewrite <- app_assoc | done].
Qed.

Lemma capturable_loop_eligible (sample : bytes) (captures : list (Node * string))
    (cands : list Node) :
  capturable_loop sample captures [] = Ok cands ->
  Forall (fun node => eligible sample node = true) cands.
Proof.
  intros Hrun. apply capturable_loop_spec in Hrun. subst cands. simpl.
  apply List.Forall_forall. intros node Hin.
  by apply List.filter_In in Hin as [_ ?].
Qed.

(** On eligible candidates the second loop keeps every index. *)
Lemma splittable_loop_all (sample : bytes) (nodes : list Node) :
  Forall (fun node => eligible sample node = true) nodes ->
  forall i acc,
  splittable_loop sample i nodes acc = Ok (acc ++ seq i (length nodes)).
Proof.
  induction 1 as [|node rest Hnode _ IH]; intros i acc; simpl.
  - by rewrite app_nil_r.
  - rewrite (is_splitable_eligible _ _ Hnode). simpl.
    rewrite IH. by rewrite <- app_assoc.
Qed.

Lemma splittable_indices_all (sample : bytes) (captures : list (Node * string))
    (cands : list Node) :
  capturable_loop sample captures [] = Ok cands ->
  splittable_loop sample 0 cands [] = Ok (seq 0 (length cands)).
Proof.
  intros Hrun. apply capturable_loop_eligible in Hrun.
  by rewrite (splittable_loop_all _ _ Hrun).
Qed.

(** ** Runs of [get_prefix_middle_suffix] *)

Section Split.
Context `{NpRandom} `{TreeSitter}.

Ltac run_simpl :=
  unfold mbind, mret, M_bind, M_ret, lift, np_choice, np_binomial in *; simpl in *.

(** Without candidates nothing is drawn and nothing is returned. *)
Lemma gpms_no_candidates (sample : bytes) (rate : Rate) (w : World)
    (captures : list (Node * string)) :
  run_query sample = Ok captures ->
  capturable_loop sample captures [] = Ok [] ->
  get_prefix_middle_suffix sample rate w = (Ok None, w).
Proof.
  intros Hq Hc. unfold get_prefix_middle_suffix. run_simpl.
  rewrite Hq, Hc. reflexivity.
Qed.

(** With candidates, one index and one strip decision are drawn, and the
    result is carved out of the sample. *)
Lemma gpms_run (sample : bytes) (rate : Rate) (w : World)
    (captures : list (Node * string)) (cands : list Node)
    (i : nat) (g1 : RandomState) (picked : Node) (strip : Z) (g2 : RandomState) :
  run_query sample = Ok captures ->
  capturable_loop sample captures [] = Ok cands ->
  rs_choice (seq 0 (length cands)) (rng w) = (Ok i, g1) ->
  cands !! i = Some picked ->
  rs_binomial 1 rate g1 = (Ok strip, g2) ->
  get_prefix_middle_suffix sample rate w
  = (Some <$> carve sample cands i picked (truthy strip), mkWorld _ g2 (stdout w)).
Proof.
  intros Hq Hc Hi Hp Hs. unfold get_prefix_middle_suffix. run_simpl.
  rewrite Hq, Hc, (splittable_indices_all _ _ _ Hc).
  rewrite length_seq.
  destruct cands as [|c0 cands']; [by rewrite lookup_nil in Hp|].
  cbn [length Nat.eqb]. cbn [length] in Hi. rewrite Hi. cbn [rng stdout].
  unfold getitem at 1. rewrite Hp. cbn [or_raise].
  unfold carve.
  destruct (move_colon _ _) as [prefix_b middle_b].
  cbn [rng stdout]. rewrite Hs.
  destruct (suffix_bytes _ _ _ _) as [suffix_b|e]; [|done]. result_simpl.
  destruct (decode_utf8 prefix_b); [|done].
  destruct (decode_utf8 middle_b); [|done].
  destruct (decode_utf8 suffix_b); done.
Qed.

(** Every returning run is one of the two above. *)
Lemma gpms_inv (sample : bytes) (rate : Rate) (w w' : World)
    (r : option (pystr * pystr * pystr)) :
  get_prefix_middle_suffix sample rate w = (Ok r, w') ->
  exists captures cands,
    run_query sample = Ok captures /\
    capturable_loop sample captures [] = Ok cands /\
    match r with
    | None => cands = [] /\ w' = w
    | Some t =>
      exists i g1 picked strip g2,
        rs_choice (seq 0 (length cands)) (rng w) = (Ok i, g1) /\
        cands !! i = Some picked /\
        rs_binomial 1 rate g1 = (Ok strip, g2) /\
        carve sample cands i picked (truthy strip) = Ok t /\
        w' = mkWorld _ g2 (stdout w)
    end.
Proof.
  intros Hrun.
  destruct (run_query sample) as [captures|e] eqn:Hq.
  2:{ unfold get_prefix_middle_suffix in Hrun. run_simpl. by rewrite Hq in Hrun. }
  destruct (capturable_loop sample captures []) as [cands|e] eqn:Hc.
  2:{ unfold get_prefix_middle_suffix in Hrun. run_simpl. by rewrite Hq, Hc in Hrun. }
  exists captures, cands. split; [done|]. split; [done|].
  destruct cands as [|c0 cands'].
  { rewrite (gpms_no_candidates _ _ _ _ Hq Hc) in Hrun. by injection Hrun as <- <-. }
  set (cands := c0 :: cands') in *.
  destruct (rs_choice (seq 0 (length cands)) (rng w)) as [[i|e] g1] eqn:Hi.
  2:{ unfold get_prefix_middle_suffix in Hrun. run_simpl.
      rewrite Hq, Hc, (splittable_indices_all _ _ _ Hc) in Hrun.
      subst cands. cbn [length seq Nat.eqb] in Hrun, Hi. by rewrite Hi in Hrun. }
  destruct (cands !! i) as [picked|] eqn:Hp.
  2:{ unfold get_prefix_middle_suffix in Hrun. run_simpl.
      rewrite Hq, Hc, (splittable_indices_all _ _ _ Hc) in Hrun.
      subst cands. cbn [length seq Nat.eqb] in Hrun, Hi. rewrite Hi in Hrun.
      unfold getitem in Hrun. by rewrite Hp in Hrun. }
  destruct (rs_binomial 1 rate g1) as [[strip|e] g2] eqn:Hs.
  2:{ unfold get_prefix_middle_suffix in Hrun. run_simpl.
      rewrite Hq, Hc, (splittable_indices_all _ _ _ Hc) in Hrun.
      subst cands. cbn [length seq Nat.eqb] in Hrun, Hi. rewrite Hi in Hrun.
      unfold getitem in Hrun. rewrite Hp in Hrun. cbn [or_raise] in Hrun.
      destruct (move_colon _ _). cbn [rng stdout] in Hrun. by rewrite Hs in Hrun. }
  rewrite (gpms_run _ _ _ _ _ _ _ _ _ _ Hq Hc Hi Hp Hs) in Hrun.
  destruct (carve sample cands i picked (truthy strip)) as [t|e] eqn:Ht;
    result_simpl; [|discriminate].
  injection Hrun as <- <-. by exists i, g1, picked, strip, g2.
Qed.

End Split.

(** ** The suffix *)

Lemma suffix_bytes_keep (sample : bytes) (cands : list Node) (i : nat) (picked : Node) :
  cands !! i = Some picked ->
  suffix_bytes sample cands i false = Ok (slice_from (end_byte picked) sample).
Proof.
  intros Hp. unfold suffix_bytes, getitem. by rewrite Hp.
Qed.

Lemma strip_loop_gaps (sample : bytes) (cands : list Node) (k : nat) :
  forall i acc,
  (i + k + 1 = length cands)%nat ->
  (suffix_b ← strip_loop sample cands (seq i k) acc;
   last ← getitem cands (length cands - 1);
   mret (suffix_b ++ slice_from (end_byte last) sample))
  = Ok (acc ++ concat (gap_texts sample (drop i cands))).
Proof.
  unfold mbind, Result_bind, mret, Result_ret.
  induction k as [|k IH]; intros i acc Hlen.
  - destruct (lookup_lt_is_Some_2 cands i ltac:(lia)) as [a Ha].
    rewrite (drop_S _ _ _ Ha), (drop_ge cands (S i)) by lia.
    replace (length cands - 1)%nat with i by lia.
    rewrite (proj2 (getitem_Ok _ _ _) Ha). simpl. by rewrite app_nil_r.
  - destruct (lookup_lt_is_Some_2 cands i ltac:(lia)) as [a Ha].
    destruct (lookup_lt_is_Some_2 cands (S i) ltac:(lia)) as [b Hb].
    rewrite (drop_S _ _ _ Ha).
    cbn [seq strip_loop gap_texts concat].
    unfold mbind, Result_bind.
    replace (i + 1)%nat with (S i) by lia.
    rewrite (proj2 (getitem_Ok _ _ _) Ha), (proj2 (getitem_Ok _ _ _) Hb).
    rewrite (IH (S i) _ ltac:(lia)), (drop_S _ _ _ Hb).
    by rewrite <- app_assoc.
Qed.

(** The strip branch is the specification's concatenation of gaps. *)
Lemma suffix_bytes_strip (sample : bytes) (cands : list Node) (i : nat) :
  (i < length cands)%nat ->
  suffix_bytes sample cands i true
  = Ok (concat (gap_texts sample (drop i cands))).
Proof.
  intros Hi. unfold suffix_bytes, range.
  by rewrite (strip_loop_gaps sample cands (length cands - 1 - i) i [] ltac:(lia)).
Qed.

Lemma occurs_in_concat {A} (x : list A) (ls : list (list A)) :
  In x ls -> occurs_in x (concat ls).
Proof.
  induction ls as [|y ls IH]; intros Hin; [done|].
  destruct Hin as [->|Hin].
  - by exists [], (concat ls).
  - destruct (IH Hin) as (l1 & l2 & Heq).
    exists (y ++ l1), l2. simpl. by rewrite Heq, <- app_assoc.
Qed.

Lemma occurs_in_trans {A} (x y z : list A) :
  occurs_in x y -> occurs_in y z -> occurs_in x z.
Proof.
  intros (l1 & l2 & ->) (m1 & m2 & ->).
  exists (m1 ++ l1), (l2 ++ m2). by rewrite <- !app_assoc.
Qed.

Lemma occurs_in_slice {A} (a b c d : nat) (l : list A) :
  (a <= c)%nat -> (c <= d)%nat -> (d <= b)%nat ->
  occurs_in (slice c d l) (slice a b l).
Proof.
  intros Hac Hcd Hdb. exists (slice a c l), (slice d b l).
  by apply slice_inside.
Qed.

(** The gap between two neighbouring spans is one of the gap texts. *)
Lemma gap_texts_In (sample : bytes) (spans : list Node) :
  forall j a b,
  spans !! j = Some a -> spans !! S j = Some b ->
  In (slice (end_byte a) (start_byte b) sample) (gap_texts sample spans).
Proof.
  induction spans as [|c rest IH]; intros j a b Ha Hb; [done|].
  destruct rest as [|c' rest']; [done|].
  destruct j as [|j].
  - injection Ha as ->. injection Hb as ->. by left.
  - right. by apply (IH j).
Qed.

(** ** [get_fim_token_ids] *)

Section Sentinels.
Context `{Tokenizer}.

(** The lookups never fail halfway: the body gives all four ids or none. *)
Lemma get_fim_token_ids_never_partial :
  get_fim_token_ids_wrapped = Ok (None, None, None, None) \/
  exists s p m d, get_fim_token_ids_wrapped = Ok (Some s, Some p, Some m, Some d).
Proof.
  unfold get_fim_token_ids_wrapped, vocab_getitem.
  destruct (vocab !! FIM_SUFFIX) as [s|]; [|by left].
  destruct (vocab !! FIM_PREFIX) as [p|]; [|by left].
  destruct (vocab !! FIM_MIDDLE) as [m|]; [|by left].
  destruct (vocab !! FIM_PAD) as [d|]; [|by left].
  right. by exists s, p, m, d.
Qed.


(** The body gives four ids exactly when all four strings are keys. *)
Lemma get_fim_token_ids_wrapped_Some_iff (s p m d : Z) :
  get_fim_token_ids_wrapped = Ok (Some s, Some p, Some m, Some d) <->
  vocab !! FIM_SUFFIX = Some s /\ vocab !! FIM_PREFIX = Some p /\
  vocab !! FIM_MIDDLE = Some m /\ vocab !! FIM_PAD = Some d.
Proof.
  unfold get_fim_token_ids_wrapped, vocab_getitem.
  destruct (vocab !! FIM_SUFFIX) as [s'|];
    [|split; [discriminate | intros (? & _); discriminate]].
  destruct (vocab !! FIM_PREFIX) as [p'|];
    [|split; [discriminate | intros (_ & ? & _); discriminate]].
  destruct (vocab !! FIM_MIDDLE) as [m'|];
    [|split; [discriminate | intros (_ & _ & ? & _); discriminate]].
  destruct (vocab !! FIM_PAD) as [d'|];
    [|split; [discriminate | intros (_ & _ & _ & ?); discriminate]].
  result_simpl. split.
  - intros Heq. injection Heq as -> -> -> ->. done.
  - intros (Hs & Hp & Hm & Hd). by simplify_eq.
Qed.

End Sentinels.

(** A call with a hashable tokenizer: the stored answer if there is one,
    the body's answer otherwise. *)
Lemma get_fim_token_ids_fst (k : positive) (T : Tokenizer) (cache : Cache) :
  fst (@get_fim_token_ids (Some k) T cache)
  = match cache !! k with
    | Some ids => Ok ids
    | None => @get_fim_token_ids_wrapped T
    end.
Proof.
  unfold get_fim_token_ids. destruct (cache !! k); [done|].
  by destruct (@get_fim_token_ids_wrapped T).
Qed.

(** What a call leaves in the cache under a key. *)
Lemma get_fim_token_ids_snd (key : option positive) (T : Tokenizer) (cache : Cache)
    (k : positive) :
  snd (@get_fim_token_ids key T cache) !! k
  = match cache !! k with
    | Some ids => Some ids
    | None =>
      if decide (key = Some k)
      then match @get_fim_token_ids_wrapped T with
           | Ok ids => Some ids
           | Raise _ => None
           end
      else None
    end.
Proof.
  unfold get_fim_token_ids. destruct key as [k'|]; simpl.
  - destruct (decide (Some k' = Some k)) as [Heq|Hne].
    + injection Heq as ->.
      destruct (cache !! k) as [ids|] eqn:Hk; simpl; [exact Hk|].
      destruct (@get_fim_token_ids_wrapped T); simpl;
        [apply lookup_insert_eq | exact Hk].
    + assert (k' <> k) by congruence.
      destruct (cache !! k') as [ids|]; simpl; [by destruct (cache !! k)|].
      destruct (@get_fim_token_ids_wrapped T); simpl.
      * rewrite lookup_insert_ne by done. by destruct (cache !! k).
      * by destruct (cache !! k).
  - destruct (decide (None = Some k)); [done|]. by destruct (cache !! k).
Qed.

(** After any series of calls, a call answers what the cache held at the
    start, or else what the body gave when the tokenizer was first seen. *)
Lemma get_fim_token_ids_replays (history : list call) :
  forall (cache : Cache) (k : positive) (T : Tokenizer),
  fst (@get_fim_token_ids (Some k) T (cache_after history cache))
  = match cache !! k with
    | Some ids => Ok ids
    | None => @get_fim_token_ids_wrapped (first_seen k history T)
    end.
Proof.
  induction history as [|[key T0] rest IH]; intros cache k T.
  - apply get_fim_token_ids_fst.
  - cbn [cache_after first_seen]. rewrite IH, get_fim_token_ids_snd.
    destruct (cache !! k) as [ids|]; [done|].
    destruct (decide (key = Some k)); [|done].
    destruct (@get_fim_token_ids_never_partial T0) as [Hn|(s & p & m & d & Hs)].
    + by rewrite Hn.
    + by rewrite Hs.
Qed.



Example get_fim_token_ids_first_call_missing_pad :
  fst (@get_fim_token_ids (Some 1%positive) (byte_tokenizer vocab_without_pad) ∅)
  = Ok (None, None, None, None).
Proof. reflexivity. Qed.

(** ** numpy arrays *)

Lemma elem_dtype_int64 (z : Z) : fits_int64 z -> elem_dtype z = int64.
Proof.
  unfold fits_int64, elem_dtype. intros [Hlo Hhi].
  apply Z.leb_le in Hlo. apply Z.ltb_lt in Hhi. by rewrite Hlo, Hhi.
Qed.


Lemma discover_int64 (l : list Z) :
  Forall fits_int64 l ->
  discover l = match l with [] => float64 | _ :: _ => int64 end.
Proof.
  destruct l as [|z r]; [done|]. intros Hl. apply Forall_cons in Hl as [Hz Hr].
  simpl. rewrite (elem_dtype_int64 z Hz).
  induction Hr as [|z' r Hz' _ IH]; [done|].
  simpl. by rewrite (elem_dtype_int64 z' Hz').
Qed.

(** The elements of [np.array(l)], converted once more to [d]. *)
Lemma np_array_items_cast (d : dtype) (l : list Z) :
  Forall fits_int64 l ->
  map (cast d) (arr_items (np_array l)) = map (as_dtype d) l.
Proof.
  intros Hl. unfold np_array. cbn [arr_items].
  rewrite (discover_int64 l Hl). destruct l as [|z r]; [done|].
  rewrite map_map. reflexivity.
Qed.

Lemma np_array_dtype (l : list Z) :
  Forall fits_int64 l ->
  arr_dtype (np_array l) = match l with [] => float64 | _ :: _ => int64 end.
Proof. apply discover_int64. Qed.

Lemma np_array_length (l : list Z) : length (arr_items (np_array l)) = length l.
Proof. unfold np_array. cbn [arr_items]. by rewrite length_map. Qed.

Lemma cast_length (d : dtype) (xs : list scalar) : length (map (cast d) xs) = length xs.
Proof. by rewrite length_map. Qed.

Lemma as_dtype_int64 (z : Z) : as_dtype int64 z = Int z.
Proof. reflexivity. Qed.

Lemma as_dtype_float64 (z : Z) : as_dtype float64 z = Float (round53 z).
Proof. reflexivity. Qed.

(** Below [2^53] in absolute value the conversion to float64 is exact. *)
Lemma round53_exact (z : Z) : Z.abs z < 2 ^ 53 -> round53 z = z.
Proof.
  intros Hz. unfold round53. apply Z.ltb_lt in Hz. by rewrite Hz.
Qed.

(** The two orderings on arrays built from ids that fit int64: the ids in
    order, as int64 when the three encodings are non-empty and as float64
    when one of them is empty. *)
Lemma spm_sample_items (suf pre mid : Z) (ep em es : list Z) :
  Forall fits_int64 ([pre; suf; mid] ++ ep ++ em ++ es) ->
  tolist <$> spm_sample suf pre mid (np_array ep) (np_array em) (np_array es)
  = Ok (map (as_dtype (segments_dtype ep em es))
          ([pre; suf] ++ es ++ [mid] ++ ep ++ em)).
Proof.
  intros Hall.
  apply Forall_cons in Hall as [Hpre Hall]. apply Forall_cons in Hall as [Hsuf Hall].
  apply Forall_cons in Hall as [Hmid Hall]. apply Forall_app in Hall as [Hep Hall].
  apply Forall_app in Hall as [Hem Hes].
  assert (Hps : Forall fits_int64 [pre; suf])
    by (constructor; [done | constructor; [done | constructor]]).
  assert (Hm : Forall fits_int64 [mid]) by (constructor; [done | constructor]).
  unfold spm_sample, np_concatenate, tolist. cbn [fold_left].
  rewrite !np_array_dtype by done.
  set (d := promote _ _).
  assert (Hd : d = segments_dtype ep em es) by (by destruct ep, em, es).
  clearbody d. subst d. cbn [fmap Result_fmap arr_items map concat].
  rewrite !np_array_items_cast by done.
  by rewrite app_nil_r, !map_app.
Qed.

Lemma psm_sample_items (suf pre mid : Z) (ep em es : list Z) :
  Forall fits_int64 ([pre; suf; mid] ++ ep ++ em ++ es) ->
  tolist <$> psm_sample suf pre mid (np_array ep) (np_array em) (np_array es)
  = Ok (map (as_dtype (segments_dtype ep em es))
          ([pre] ++ ep ++ [suf] ++ es ++ [mid] ++ em)).
Proof.
  intros Hall.
  apply Forall_cons in Hall as [Hpre Hall]. apply Forall_cons in Hall as [Hsuf Hall].
  apply Forall_cons in Hall as [Hmid Hall]. apply Forall_app in Hall as [Hep Hall].
  apply Forall_app in Hall as [Hem Hes].
  assert (Hp : Forall fits_int64 [pre]) by (constructor; [done | constructor]).
  assert (Hs : Forall fits_int64 [suf]) by (constructor; [done | constructor]).
  assert (Hm : Forall fits_int64 [mid]) by (constructor; [done | constructor]).
  unfold psm_sample, np_concatenate, tolist. cbn [fold_left].
  rewrite !np_array_dtype by done.
  set (d := promote _ _).
  assert (Hd : d = segments_dtype ep em es) by (by destruct ep, em, es).
  clearbody d. subst d. cbn [fmap Result_fmap arr_items map concat].
  rewrite !np_array_items_cast by done.
  by rewrite app_nil_r, !map_app.
Qed.

Lemma spm_sample_tolist (suf pre mid : Z) (ep em es : list Z) (a : ndarray) :
  Forall fits_int64 ([pre; suf; mid] ++ ep ++ em ++ es) ->
  spm_sample suf pre mid (np_array ep) (np_array em) (np_array es) = Ok a ->
  tolist a = map (as_dtype (segments_dtype ep em es))
               ([pre; suf] ++ es ++ [mid] ++ ep ++ em).
Proof.
  intros Hfit Ha. pose proof (spm_sample_items suf pre mid ep em es Hfit) as Hitems.
  rewrite Ha in Hitems. by injection Hitems.
Qed.

Lemma psm_sample_tolist (suf pre mid : Z) (ep em es : list Z) (a : ndarray) :
  Forall fits_int64 ([pre; suf; mid] ++ ep ++ em ++ es) ->
  psm_sample suf pre mid (np_array ep) (np_array em) (np_array es) = Ok a ->
  tolist a = map (as_dtype (segments_dtype ep em es))
               ([pre] ++ ep ++ [suf] ++ es ++ [mid] ++ em).
Proof.
  intros Hfit Ha. pose proof (psm_sample_items suf pre mid ep em es Hfit) as Hitems.
  rewrite Ha in Hitems. by injection Hitems.
Qed.

(** Whatever the ids, the concatenation has as many elements as the three
    sentinels and the three encodings together. *)
Lemma spm_sample_length (suf pre mid : Z) (ep em es : list Z) :
  exists a, spm_sample suf pre mid (np_array ep) (np_array em) (np_array es) = Ok a /\
    length (tolist a) = (3 + length ep + length em + length es)%nat.
Proof.
  unfold spm_sample, np_concatenate, tolist. eexists. split; [reflexivity|].
  cbn [arr_items map concat].
  rewrite !length_app, !cast_length, !np_array_length. simpl. lia.
Qed.

Lemma psm_sample_length (suf pre mid : Z) (ep em es : list Z) :
  exists a, psm_sample suf pre mid (np_array ep) (np_array em) (np_array es) = Ok a /\
    length (tolist a) = (3 + length ep + length em + length es)%nat.
Proof.
  unfold psm_sample, np_concatenate, tolist. eexists. split; [reflexivity|].
  cbn [arr_items map concat].
  rewrite !length_app, !cast_length, !np_array_length. simpl. lia.
Qed.

(** ** [permute] *)

Section Permute.
Context `{NpRandom} `{TreeSitter} `{Tokenizer}.

Ltac permute_simpl :=
  unfold permute, try_except_Exception, mbind, mret, M_bind, M_ret, lift,
    np_binomial, print_ in *; simpl in *.

(** Without the coin flip the sample passes through. *)
Lemma permute_unmodified (sample : list Z) (suf pre mid : Z)
    (fim_rate spm_rate strip_rate : Rate) (w : World) (fim : Z) (g1 : RandomState) :
  rs_binomial 1 fim_rate (rng w) = (Ok fim, g1) ->
  truthy fim = false ->
  permute sample suf pre mid fim_rate spm_rate strip_rate w
  = (Ok (Some (list_of_tokens sample)), mkWorld _ g1 (stdout w)).
Proof.
  intros Hfim Hf. permute_simpl. by rewrite Hfim, Hf.
Qed.

(** [tokenizer.decode] is called outside the [try] block: what it raises
    leaves [permute]. *)
Lemma permute_decode_exception_propagates (sample : list Z) (suf pre mid : Z)
    (fim_rate spm_rate strip_rate : Rate) (w : World) (fim : Z) (g1 : RandomState)
    (e : exn) :
  rs_binomial 1 fim_rate (rng w) = (Ok fim, g1) ->
  truthy fim = true ->
  tok_decode sample = Raise e ->
  permute sample suf pre mid fim_rate spm_rate strip_rate w
  = (Raise e, mkWorld _ g1 (stdout w)).
Proof.
  intros Hfim Hf Hd. permute_simpl. by rewrite Hfim, Hf, Hd.
Qed.

(** C1 (amended): when the coin flip succeeds and the split finds no
    eligible span, [permute] returns [None] in place of a token sequence,
    with the generator as the coin flip left it and nothing printed; it does
    not return the original sample. *)
Theorem permute_no_eligible_span (sample : list Z) (suf pre mid : Z)
    (fim_rate spm_rate strip_rate : Rate) (w w1 : World) (fim : Z) (g1 : RandomState)
    (decoded : pystr + bytes) (decoded_bytes : bytes) :
  rs_binomial 1 fim_rate (rng w) = (Ok fim, g1) ->
  truthy fim = true ->
  tok_decode sample = Ok decoded ->
  as_bytes decoded = Ok decoded_bytes ->
  get_prefix_middle_suffix decoded_bytes strip_rate (mkWorld _ g1 (stdout w))
    = (Ok None, w1) ->
  permute sample suf pre mid fim_rate spm_rate strip_rate w
  = (Ok None, mkWorld _ g1 (stdout w)).
Proof.
  intros Hfim Hf Hd Hb Hsplit.
  pose proof (gpms_inv _ _ _ _ _ Hsplit) as (captures & cands & _ & _ & _ & ->).
  permute_simpl. by rewrite Hfim, Hf, Hd, Hb, Hsplit.
Qed.

(** C2 (amended): an exception deriving from [Exception] that is raised
    while the split algorithm runs is caught in [permute]: the exception and
    the decoded bytes are printed and [permute] returns [None] with the
    generator, not the original sample.  (What [tokenizer.decode] raises is
    outside the [try] block and is not caught.) *)
Theorem permute_catches_split_exception (sample : list Z) (suf pre mid : Z)
    (fim_rate spm_rate strip_rate : Rate) (w w2 : World) (fim : Z) (g1 : RandomState)
    (decoded : pystr + bytes) (decoded_bytes : bytes) (e : exn) :
  rs_binomial 1 fim_rate (rng w) = (Ok fim, g1) ->
  truthy fim = true ->
  tok_decode sample = Ok decoded ->
  as_bytes decoded = Ok decoded_bytes ->
  get_prefix_middle_suffix decoded_bytes strip_rate (mkWorld _ g1 (stdout w))
    = (Raise e, w2) ->
  is_Exception e = true ->
  permute sample suf pre mid fim_rate spm_rate strip_rate w
  = (Ok None,
     mkWorld _ (rng w2)
       (stdout w2 ++ [PrintException e; PrintFailedSample decoded_bytes])).
Proof.
  intros Hfim Hf Hd Hb Hsplit He.
  permute_simpl. rewrite Hfim, Hf, Hd, Hb, Hsplit, He.
  by rewrite <- app_assoc.
Qed.



End Permute.

(** *** [permute] on concrete inputs *)

Lemma permute_no_eligible_span_witness :
  @permute tape_rng (parser_of []) (byte_tokenizer full_vocab)
    plain_tokens 258 256 257 1%Q (1 # 2)%Q (9 # 10)%Q (world0 [0%nat])
  = (Ok None, world0 []).
Proof.
  apply (@permute_no_eligible_span tape_rng (parser_of []) (byte_tokenizer full_vocab)
           plain_tokens 258 256 257 1%Q (1 # 2)%Q (9 # 10)%Q
           (world0 [0%nat]) (world0 []) 1 [] (inr plain_sample) plain_sample);
    reflexivity.
Defined.

(** C1 (as stated) fails: [let x = 1] has no annotation, the coin flip
    succeeds at rate 1, and [permute] returns [None], not the sample. *)
Lemma permute_no_eligible_span_not_the_sample :
  fst (tape_binomial 1 1%Q [0%nat]) = Ok 1 /\
  fst (@get_prefix_middle_suffix tape_rng (parser_of [])
         plain_sample (9 # 10)%Q (world0 [])) = Ok None /\
  fst (@permute tape_rng (parser_of []) (byte_tokenizer full_vocab)
         plain_tokens 258 256 257 1%Q (1 # 2)%Q (9 # 10)%Q (world0 [0%nat]))
  <> Ok (Some (list_of_tokens plain_tokens)).
Proof.
  split; [reflexivity|]. split; [reflexivity|].
  vm_compute. discriminate.
Qed.

Lemma permute_catches_split_exception_witness :
  @permute tape_rng (parser_of foo_captures) (byte_tokenizer full_vocab)
    foo_tokens 258 256 257 1%Q (1 # 2)%Q 2%Q (world0 [0; 0; 0]%nat)
  = (Ok None,
     @mkWorld tape_rng [0%nat] [PrintException ValueError; PrintFailedSample foo_sample]).
Proof.
  apply (@permute_catches_split_exception tape_rng (parser_of foo_captures)
           (byte_tokenizer full_vocab)
           foo_tokens 258 256 257 1%Q (1 # 2)%Q 2%Q
           (world0 [0; 0; 0]%nat) (world0 [0%nat]) 1 [0; 0]%nat
           (inr foo_sample) foo_sample ValueError);
    reflexivity.
Defined.

(** C2 (as stated) fails: token 300 is no byte, [tokenizer.decode] raises
    [ValueError], and the exception leaves [permute]. *)
Lemma permute_decode_exception_escapes :
  @tok_decode (byte_tokenizer full_vocab) [300] = Raise ValueError /\
  fst (@permute tape_rng (parser_of []) (byte_tokenizer full_vocab)
         [300] 258 256 257 1%Q (1 # 2)%Q (9 # 10)%Q (world0 [0%nat]))
  = Raise ValueError.
Proof. split; reflexivity. Qed.


(** With an empty suffix the output is a list of floats, and a sentinel id
    above [2^53] is not even the same number: [2^53 + 1] comes back as
    [2^53]. *)
Example permute_empty_suffix_rounds_the_sentinel :
  fst (@permute tape_rng (parser_of eof_captures) (byte_tokenizer full_vocab)
         eof_tokens 258 9007199254740993 257 1%Q 0%Q 0%Q (world0 [0; 0; 0; 0]%nat))
  = Ok (Some ([Float 9007199254740992]
              ++ map Float (t_ "let x: ") ++ [Float 258] ++ [Float 257]
              ++ map Float (t_ "number"))).
Proof. reflexivity. Qed.

(** With three non-empty encodings the output is the exact ids. *)
Example permute_ordering_psm :
  fst (@permute tape_rng (parser_of foo_captures) (byte_tokenizer full_vocab)
         foo_tokens 258 256 257 1%Q 0%Q 0%Q (world0 [0; 0; 0; 0]%nat))
  = Ok (Some (map Int ([256] ++ t_ "interface Foo { foo(x: " ++ [258]
                       ++ t_ ", y: number): number; }" ++ [257] ++ t_ "number"))).
Proof. reflexivity. Qed.

Example permute_ordering_spm :
  fst (@permute tape_rng (parser_of foo_captures) (byte_tokenizer full_vocab)
         foo_tokens 258 256 257 1%Q 1%Q 0%Q (world0 [0; 0; 0; 0]%nat))
  = Ok (Some (map Int ([256; 258] ++ t_ ", y: number): number; }" ++ [257]
                       ++ t_ "interface Foo { foo(x: " ++ t_ "number"))).
Proof. reflexivity. Qed.

(** ** Properties of the split *)

Lemma utf8_decode_Ok (b : bytes) (s : pystr) :
  decode_utf8 b = Ok s <-> utf8_decode b = Some s.
Proof. apply or_raise_Ok. Qed.

(** A carved result, taken apart: the three byte strings and their texts. *)
Lemma carve_inv (sample : bytes) (cands : list Node) (i : nat) (picked : Node)
    (strip : bool) (p m s : pystr) :
  carve sample cands i picked strip = Ok (p, m, s) ->
  exists prefix_b middle_b suffix_b,
    move_colon (slice_to (start_byte picked) sample)
               (slice (start_byte picked) (end_byte picked) sample)
      = (prefix_b, middle_b) /\
    suffix_bytes sample cands i strip = Ok suffix_b /\
    utf8_decode prefix_b = Some p /\
    utf8_decode middle_b = Some m /\
    utf8_decode suffix_b = Some s.
Proof.
  unfold carve. intros Hc.
  destruct (move_colon _ _) as [prefix_b middle_b].
  apply Result_bind_Ok_inv in Hc as (suffix_b & Hsb & Hc).
  apply Result_bind_Ok_inv in Hc as (p' & Hp & Hc).
  apply Result_bind_Ok_inv in Hc as (m' & Hm & Hc).
  apply Result_bind_Ok_inv in Hc as (s' & Hs & Hc).
  injection Hc as -> -> ->.
  exists prefix_b, middle_b, suffix_b.
  by rewrite <- !utf8_decode_Ok.
Qed.

Lemma move_colon_app (prefix_b span : bytes) :
  let '(p, m) := move_colon prefix_b span in
  p ++ m = prefix_b ++ colon_normalized span.
Proof.
  unfold move_colon, colon_normalized.
  destruct (startswith_colon span); [by rewrite <- app_assoc | done].
Qed.

Section SplitProperties.
Context `{NpRandom} `{TreeSitter}.

(** C5: a captured node is in the candidate list exactly when none of its
    ancestors is a node of one of the three annotation types and its decoded
    source text does not contain [//]; the list keeps those nodes in capture
    order and drops every other captured node, and whatever the generator
    draws, a returned split is carved at a node of that list. *)
Theorem candidates_are_the_eligible_captures (sample : bytes)
    (captures : list (Node * string)) (cands : list Node) :
  run_query sample = Ok captures ->
  capturable_loop sample captures [] = Ok cands ->
  cands = List.filter (eligible sample) (map fst captures) /\
  (forall node,
     In node cands <->
     In node (map fst captures) /\
     ~ nested_in_annotation node /\
     text_without_slashes sample node) /\
  (forall (rate : Rate) (w w' : World) (p m s : pystr),
     get_prefix_middle_suffix sample rate w = (Ok (Some (p, m, s)), w') ->
     exists i picked strip,
       cands !! i = Some picked /\
       ~ nested_in_annotation picked /\
       text_without_slashes sample picked /\
       carve sample cands i picked strip = Ok (p, m, s)).
Proof.
  intros Hq Hc.
  pose proof (capturable_loop_spec _ _ _ _ Hc) as Hspec. simpl in Hspec.
  assert (Hmem : forall node,
            In node cands <->
            In node (map fst captures) /\
            ~ nested_in_annotation node /\
            text_without_slashes sample node).
  { intros node. rewrite Hspec, List.filter_In, eligible_meaning. reflexivity. }
  split; [done|]. split; [done|].
  intros rate w w' p m s Hrun.
  apply gpms_inv in Hrun as (captures' & cands' & Hq' & Hc' & Hrun).
  rewrite Hq in Hq'. injection Hq' as <-.
  rewrite Hc in Hc'. injection Hc' as <-.
  destruct Hrun as (i & g1 & picked & strip & g2 & _ & Hp & _ & Hcarve & _).
  exists i, picked, (truthy strip).
  assert (Hin : In picked cands).
  { apply list_elem_of_In. by apply list_elem_of_lookup_2 in Hp. }
  apply Hmem in Hin as (_ & Hnested & Htext). done.
Qed.

(** C9: when exactly one span is eligible, the strip branch and the keep
    branch compute the same suffix, the rest of the sample after that span,
    and this is the suffix returned whatever the strip draw. *)
Theorem single_span_suffix (sample : bytes)
    (captures : list (Node * string)) (node : Node) :
  run_query sample = Ok captures ->
  capturable_loop sample captures [] = Ok [node] ->
  suffix_bytes sample [node] 0 true = Ok (slice_from (end_byte node) sample) /\
  suffix_bytes sample [node] 0 false = Ok (slice_from (end_byte node) sample) /\
  (forall (rate : Rate) (w w' : World) (p m s : pystr),
     get_prefix_middle_suffix sample rate w = (Ok (Some (p, m, s)), w') ->
     utf8_decode (slice_from (end_byte node) sample) = Some s).
Proof.
  intros Hq Hc.
  assert (Hstrip : suffix_bytes sample [node] 0 true
                   = Ok (slice_from (end_byte node) sample)).
  { rewrite suffix_bytes_strip by (simpl; lia). simpl. by rewrite app_nil_r. }
  assert (Hkeep : suffix_bytes sample [node] 0 false
                  = Ok (slice_from (end_byte node) sample)).
  { by apply suffix_bytes_keep. }
  split; [done|]. split; [done|].
  intros rate w w' p m s Hrun.
  apply gpms_inv in Hrun as (captures' & cands' & Hq' & Hc' & Hrun).
  rewrite Hq in Hq'. injection Hq' as <-.
  rewrite Hc in Hc'. injection Hc' as <-.
  destruct Hrun as (i & g1 & picked & strip & g2 & _ & Hp & _ & Hcarve & _).
  destruct i as [|i]; [|by rewrite lookup_cons, lookup_nil in Hp].
  apply carve_inv in Hcarve as (pb & mb & sb & _ & Hsb & _ & _ & Hs).
  destruct (truthy strip); congruence.
Qed.

(** C3 (amended): when stripping is not applied, the returned prefix, middle
    and suffix concatenate to the sample with the selected span's leading
    colon and the whitespace after it replaced by a colon and one space (the
    colon and the space are the end of the returned prefix); they
    reconstruct the sample byte for byte exactly when the span is unchanged
    by that replacement. *)
Theorem split_keep_reconstructs (sample : bytes) (rate : Rate) (w w' : World)
    (captures : list (Node * string)) (cands : list Node)
    (i : nat) (g1 : RandomState) (picked : Node) (strip : Z) (g2 : RandomState)
    (p m s : pystr) :
  run_query sample = Ok captures ->
  capturable_loop sample captures [] = Ok cands ->
  rs_choice (seq 0 (length cands)) (rng w) = (Ok i, g1) ->
  cands !! i = Some picked ->
  rs_binomial 1 rate g1 = (Ok strip, g2) ->
  truthy strip = false ->
  (start_byte picked <= end_byte picked)%nat ->
  get_prefix_middle_suffix sample rate w = (Ok (Some (p, m, s)), w') ->
  let span := slice (start_byte picked) (end_byte picked) sample in
  utf8_encode (p ++ m ++ s)
  = Some (slice_to (start_byte picked) sample ++ colon_normalized span
          ++ slice_from (end_byte picked) sample) /\
  (utf8_encode (p ++ m ++ s) = Some sample <-> colon_normalized span = span) /\
  (colon_normalized span = span -> utf8_decode sample = Some (p ++ m ++ s)).
Proof.
  intros Hq Hc Hi Hp Hs Hkeep Hle Hrun span.
  rewrite (gpms_run _ _ _ _ _ _ _ _ _ _ Hq Hc Hi Hp Hs), Hkeep in Hrun.
  destruct (carve sample cands i picked false) as [[[p' m'] s']|e] eqn:Hcarve;
    [|discriminate].
  injection Hrun as -> -> -> _.
  apply carve_inv in Hcarve as (pb & mb & sb & Hmove & Hsb & Hdp & Hdm & Hds).
  rewrite (suffix_bytes_keep _ _ _ _ Hp) in Hsb. injection Hsb as <-.
  pose proof (move_colon_app (slice_to (start_byte picked) sample) span) as Happ.
  fold span in Hmove. rewrite Hmove in Happ.
  pose proof (utf8_decode_app3 _ _ _ _ _ _ Hdp Hdm Hds) as Hdec.
  rewrite app_assoc, Happ, <- app_assoc in Hdec.
  pose proof (utf8_encode_decode _ _ Hdec) as Henc.
  pose proof (slice_split (start_byte picked) (end_byte picked) sample Hle) as Hsplit.
  fold span in Hsplit.
  split; [done|]. split; [split|].
  - rewrite Henc. intros Heq. injection Heq as Heq.
    assert (Heq' : slice_to (start_byte picked) sample ++ colon_normalized span
                   ++ slice_from (end_byte picked) sample
                   = slice_to (start_byte picked) sample ++ span
                     ++ slice_from (end_byte picked) sample)
      by (etrans; [exact Heq | symmetry; exact Hsplit]).
    apply app_inv_head in Heq'. by apply app_inv_tail in Heq'.
  - intros Hfix. by rewrite Henc, Hfix, Hsplit.
  - intros Hfix. by rewrite Hfix, Hsplit in Hdec.
Qed.

(** The suffix of a run whose strip draw succeeded. *)
Lemma stripped_suffix_gaps (sample : bytes) (rate : Rate) (w w' : World)
    (captures : list (Node * string)) (cands : list Node)
    (i : nat) (g1 : RandomState) (strip : Z) (g2 : RandomState)
    (p m s : pystr) :
  run_query sample = Ok captures ->
  capturable_loop sample captures [] = Ok cands ->
  rs_choice (seq 0 (length cands)) (rng w) = (Ok i, g1) ->
  rs_binomial 1 rate g1 = (Ok strip, g2) ->
  truthy strip = true ->
  get_prefix_middle_suffix sample rate w = (Ok (Some (p, m, s)), w') ->
  utf8_decode (concat (gap_texts sample (drop i cands))) = Some s /\
  utf8_encode s = Some (concat (gap_texts sample (drop i cands))).
Proof.
  intros Hq Hc Hi Hs Hstrip Hrun.
  apply gpms_inv in Hrun as (captures' & cands' & Hq' & Hc' & Hrun).
  rewrite Hq in Hq'. injection Hq' as <-.
  rewrite Hc in Hc'. injection Hc' as <-.
  destruct Hrun as (i' & g1' & picked & strip' & g2' & Hi' & Hp & Hs' & Hcarve & _).
  rewrite Hi in Hi'. injection Hi' as <- <-.
  rewrite Hs in Hs'. injection Hs' as <- <-.
  rewrite Hstrip in Hcarve.
  apply carve_inv in Hcarve as (pb & mb & sb & _ & Hsb & _ & _ & Hds).
  rewrite suffix_bytes_strip in Hsb by (by apply lookup_lt_Some in Hp).
  injection Hsb as <-.
  split; [done|]. by apply utf8_encode_decode.
Qed.

(** C7 (amended): when the strip draw succeeds, the produced suffix is
    exactly the concatenation, in source order, of the gap texts from the
    selected span on: from each eligible span's end to the next eligible
    span's start, and from the last eligible span's end to the end of the
    sample.  (The byte ranges of the later spans are left out; their text
    may still occur inside a gap.) *)
Theorem strip_suffix_is_gap_concat (sample : bytes) (rate : Rate) (w w' : World)
    (captures : list (Node * string)) (cands : list Node)
    (i : nat) (g1 : RandomState) (strip : Z) (g2 : RandomState)
    (p m s : pystr) :
  run_query sample = Ok captures ->
  capturable_loop sample captures [] = Ok cands ->
  rs_choice (seq 0 (length cands)) (rng w) = (Ok i, g1) ->
  rs_binomial 1 rate g1 = (Ok strip, g2) ->
  truthy strip = true ->
  get_prefix_middle_suffix sample rate w = (Ok (Some (p, m, s)), w') ->
  utf8_decode (concat (gap_texts sample (drop i cands))) = Some s /\
  utf8_encode s = Some (concat (gap_texts sample (drop i cands))).
Proof.
  intros Hq Hc Hi Hs Hstrip Hrun.
  exact (stripped_suffix_gaps sample rate w w' captures cands i g1 strip g2 p m s
           Hq Hc Hi Hs Hstrip Hrun).
Qed.

(** C10: when stripping is applied, a captured annotation node that the
    eligibility filter dropped is not a candidate, and when its byte range lies
    between two consecutive candidates at or after the selected one, its bytes
    occur as they are in the stripped suffix. *)
Theorem dropped_annotation_stays_in_stripped_suffix (sample : bytes) (rate : Rate)
    (w w' : World) (captures : list (Node * string)) (cands : list Node)
    (i : nat) (g1 : RandomState) (strip : Z) (g2 : RandomState)
    (p m s : pystr) (dropped : Node) (j : nat) (a b : Node) :
  run_query sample = Ok captures ->
  capturable_loop sample captures [] = Ok cands ->
  In dropped (map fst captures) ->
  eligible sample dropped = false ->
  rs_choice (seq 0 (length cands)) (rng w) = (Ok i, g1) ->
  rs_binomial 1 rate g1 = (Ok strip, g2) ->
  truthy strip = true ->
  (i <= j)%nat ->
  cands !! j = Some a ->
  cands !! S j = Some b ->
  (end_byte a <= start_byte dropped)%nat ->
  (start_byte dropped <= end_byte dropped)%nat ->
  (end_byte dropped <= start_byte b)%nat ->
  get_prefix_middle_suffix sample rate w = (Ok (Some (p, m, s)), w') ->
  ~ In dropped cands /\
  exists suffix_b,
    utf8_decode suffix_b = Some s /\
    utf8_encode s = Some suffix_b /\
    occurs_in (slice (start_byte dropped) (end_byte dropped) sample) suffix_b.
Proof.
  intros Hq Hc Hin Hdrop Hi Hs Hstrip Hij Ha Hb Had Hdd Hdb Hrun.
  split.
  { intros Hcand. apply capturable_loop_eligible in Hc.
    rewrite List.Forall_forall in Hc. apply Hc in Hcand. congruence. }
  destruct (stripped_suffix_gaps _ _ _ _ _ _ _ _ _ _ _ _ _
              Hq Hc Hi Hs Hstrip Hrun) as [Hdec Henc].
  exists (concat (gap_texts sample (drop i cands))).
  split; [done|]. split; [done|].
  apply occurs_in_trans with (y := slice (end_byte a) (start_byte b) sample).
  - by apply occurs_in_slice.
  - apply occurs_in_concat. apply (gap_texts_In sample (drop i cands) (j - i)).
    + rewrite lookup_drop. by replace (i + (j - i))%nat with j by lia.
    + rewrite lookup_drop. by replace (i + S (j - i))%nat with (S j) by lia.
Qed.

(** C8 (amended): on [interface Foo { foo(x: number, y: number): number; }]
    the three captured annotations are all eligible, and selecting index 0
    with stripping disabled yields the prefix [interface Foo { foo(x: ] (up
    to and including the colon and one space), the middle [number] and the
    suffix [, y: number): number; }]. *)
Theorem scenario_split (rate : Rate) (w : World)
    (g1 : RandomState) (strip : Z) (g2 : RandomState) :
  run_query foo_sample = Ok foo_captures ->
  rs_choice [0; 1; 2]%nat (rng w) = (Ok 0%nat, g1) ->
  rs_binomial 1 rate g1 = (Ok strip, g2) ->
  truthy strip = false ->
  capturable_loop foo_sample foo_captures [] = Ok (map fst foo_captures) /\
  length (map fst foo_captures) = 3%nat /\
  get_prefix_middle_suffix foo_sample rate w
  = (Ok (Some (s_ "interface Foo { foo(x: ", s_ "number",
               s_ ", y: number): number; }")),
     mkWorld _ g2 (stdout w)).
Proof.
  intros Hq Hi Hs Hkeep.
  assert (Hc : capturable_loop foo_sample foo_captures [] = Ok (map fst foo_captures))
    by reflexivity.
  split; [done|]. split; [done|].
  erewrite gpms_run; [|exact Hq|exact Hc|exact Hi|reflexivity|exact Hs].
  rewrite Hkeep. reflexivity.
Qed.

End SplitProperties.

Lemma lstrip_idem (b : bytes) : lstrip (lstrip b) = lstrip b.
Proof.
  induction b as [|c r IH]; [done|]. simpl.
  destruct (is_ascii_space c) eqn:Hc; [done|]. simpl. by rewrite Hc.
Qed.

(** The replacement changes nothing when the span has no leading colon, or
    has one followed by exactly one space. *)
Lemma colon_normalized_fixed (span : bytes) :
  colon_normalized span = span <->
  startswith_colon span = false \/
  exists t, span = b_ ": " ++ t /\ lstrip t = t.
Proof.
  unfold colon_normalized.
  destruct (startswith_colon span) eqn:Hcolon.
  - destruct span as [|c r]; [discriminate|].
    destruct c; try discriminate. cbn [drop]. split.
    + intros Heq. right. injection Heq as Heq.
      exists (lstrip r). split; [|apply lstrip_idem].
      rewrite drop_0 in Heq. simpl. by rewrite Heq.
    + intros [?|(t & Heq & Ht)]; [discriminate|].
      injection Heq as ->. rewrite drop_0. simpl. by rewrite Ht.
  - split; [by left | done].
Qed.

(** *** The split on concrete inputs *)

Lemma candidates_are_the_eligible_captures_witness :
  capturable_loop nested_sample nested_captures [] = Ok [nested_o; nested_b] /\
  ~ In nested_a [nested_o; nested_b] /\
  ~ In nested_u [nested_o; nested_b].
Proof.
  destruct (@candidates_are_the_eligible_captures tape_rng (parser_of nested_captures)
              nested_sample nested_captures [nested_o; nested_b] eq_refl eq_refl)
    as (_ & Hmem & _).
  split; [reflexivity|]. split.
  - intros Hin. apply Hmem in Hin as (_ & Hnested & _). apply Hnested.
    exists nested_o. split; [right; right; left; reflexivity | left; reflexivity].
  - intros Hin. apply Hmem in Hin as (_ & _ & text & Htext & Hno). apply Hno.
    vm_compute in Htext. injection Htext as <-.
    exists (s_ ": 'x"), (s_ "y'"). reflexivity.
Defined.

Lemma single_span_suffix_witness :
  suffix_bytes tight_sample [tight_x] 0 true = Ok (b_ " = 1") /\
  suffix_bytes tight_sample [tight_x] 0 false = Ok (b_ " = 1").
Proof.
  destruct (@single_span_suffix tape_rng (parser_of tight_captures)
              tight_sample tight_captures tight_x eq_refl eq_refl)
    as (Hstrip & Hkeep & _).
  split; [exact Hstrip | exact Hkeep].
Defined.

Lemma split_keep_reconstructs_witness :
  utf8_encode (s_ "interface Foo { foo(x: " ++ s_ "number"
               ++ s_ ", y: number): number; }")
  = Some foo_sample.
Proof.
  destruct (@split_keep_reconstructs tape_rng (parser_of foo_captures)
              foo_sample 0%Q (world0 [0; 50]%nat) (world0 [])
              foo_captures [foo_x; foo_y; foo_ret] 0%nat [50%nat] foo_x 0 []
              (s_ "interface Foo { foo(x: ") (s_ "number")
              (s_ ", y: number): number; }")
              eq_refl eq_refl eq_refl eq_refl eq_refl eq_refl
              ltac:(simpl; lia) eq_refl)
    as (_ & Hiff & _).
  apply Hiff. reflexivity.
Defined.

(** C3 (as stated) fails on [let x:number = 1]: the returned prefix already
    ends with the colon and a space, so neither prefix + [": "] + middle +
    suffix nor prefix + middle + suffix is the sample. *)
Lemma split_keep_does_not_reconstruct :
  exists p m s,
    fst (@get_prefix_middle_suffix tape_rng (parser_of tight_captures)
           tight_sample 0%Q (world0 [0; 50]%nat)) = Ok (Some (p, m, s)) /\
    p = s_ "let x: " /\ m = s_ "number" /\ s = s_ " = 1" /\
    utf8_encode (p ++ s_ ": " ++ m ++ s) <> Some tight_sample /\
    utf8_encode (p ++ m ++ s) <> Some tight_sample.
Proof.
  exists (s_ "let x: "), (s_ "number"), (s_ " = 1").
  split; [reflexivity|]. do 3 (split; [reflexivity|]).
  split; vm_compute; discriminate.
Qed.

Lemma strip_suffix_is_gap_concat_witness :
  utf8_decode (concat (gap_texts literal_sample [literal_a; literal_b]))
  = Some (s_ " = 0; let o = {k: B}; let b = 0") /\
  utf8_encode (s_ " = 0; let o = {k: B}; let b = 0")
  = Some (concat (gap_texts literal_sample [literal_a; literal_b])).
Proof.
  apply (@strip_suffix_is_gap_concat tape_rng (parser_of literal_captures)
           literal_sample 1%Q (world0 [0; 50]%nat) (world0 [])
           literal_captures [literal_a; literal_b] 0%nat [50%nat] 1 []
           (s_ "let a: ") (s_ "A") (s_ " = 0; let o = {k: B}; let b = 0"));
    reflexivity.
Defined.

(** C7 (as stated) fails on [let a: A = 0; let o = {k: B}; let b: B = 0]:
    with the first annotation selected and the strip draw taken at rate 1,
    the suffix still contains [: B], the exact source text of the other
    eligible span. *)
Lemma strip_suffix_keeps_other_span_text :
  capturable_loop literal_sample literal_captures [] = Ok [literal_a; literal_b] /\
  utf8_decode (slice (start_byte literal_b) (end_byte literal_b) literal_sample)
  = Some (s_ ": B") /\
  exists p m s,
    fst (@get_prefix_middle_suffix tape_rng (parser_of literal_captures)
           literal_sample 1%Q (world0 [0; 50]%nat)) = Ok (Some (p, m, s)) /\
    m = s_ "A" /\
    str_contains (s_ ": B") s = true.
Proof.
  split; [reflexivity|]. split; [reflexivity|].
  exists (s_ "let a: "), (s_ "A"), (s_ " = 0; let o = {k: B}; let b = 0").
  split; [reflexivity|]. split; reflexivity.
Qed.

Lemma dropped_annotation_stays_in_stripped_suffix_witness :
  ~ In url_u [url_a; url_b] /\
  exists suffix_b,
    utf8_decode suffix_b = Some (s_ " = 0; let u: 'x//y' = 'x//y'; let b = 0") /\
    utf8_encode (s_ " = 0; let u: 'x//y' = 'x//y'; let b = 0") = Some suffix_b /\
    occurs_in (slice (start_byte url_u) (end_byte url_u) url_sample) suffix_b.
Proof.
  apply (@dropped_annotation_stays_in_stripped_suffix tape_rng (parser_of url_captures)
           url_sample 1%Q (world0 [0; 50]%nat) (world0 [])
           url_captures [url_a; url_b] 0%nat [50%nat] 1 []
           (s_ "let a: ") (s_ "A") (s_ " = 0; let u: 'x//y' = 'x//y'; let b = 0")
           url_u 0%nat url_a url_b);
    try reflexivity; try (simpl; lia).
  simpl. tauto.
Defined.

Lemma scenario_split_witness :
  capturable_loop foo_sample foo_captures [] = Ok (map fst foo_captures) /\
  length (map fst foo_captures) = 3%nat /\
  @get_prefix_middle_suffix tape_rng (parser_of foo_captures)
    foo_sample 0%Q (world0 [0; 50]%nat)
  = (Ok (Some (s_ "interface Foo { foo(x: ", s_ "number",
               s_ ", y: number): number; }")),
     world0 []).
Proof.
  apply (@scenario_split tape_rng (parser_of foo_captures)
           0%Q (world0 [0; 50]%nat) [50%nat] 0 []); reflexivity.
Defined.

(** C8 (as stated) fails: with index 0 selected and stripping disabled the
    prefix is [interface Foo { foo(x: ], not [interface Foo { foo(x]. *)
Lemma scenario_prefix_has_the_colon :
  fst (tape_choice [0; 1; 2]%nat [0; 50]%nat) = Ok 0%nat /\
  fst (tape_binomial 1 0%Q [50%nat]) = Ok 0 /\
  fst (@get_prefix_middle_suffix tape_rng (parser_of foo_captures)
         foo_sample 0%Q (world0 [0; 50]%nat))
  <> Ok (Some (s_ "interface Foo { foo(x", s_ "number",
               s_ ", y: number): number; }")).
Proof.
  split; [reflexivity|]. split; [reflexivity|].
  vm_compute. discriminate.
Qed.

(** * Further properties of the code *)

(** ** [get_fim_token_ids] *)

(** After any series of calls, the four ids come back resolved exactly when
    all four sentinel strings were keys of the vocabulary when the tokenizer
    was first passed to the function (now, if never before), and then they
    are that vocabulary's values in the order suffix, prefix, middle, pad. *)
Theorem get_fim_token_ids_resolved_iff (history : list call) (k : positive)
    (T : Tokenizer) (s p m d : Z) :
  fst (@get_fim_token_ids (Some k) T (cache_after history ∅))
  = Ok (Some s, Some p, Some m, Some d) <->
  @vocab (first_seen k history T) !! FIM_SUFFIX = Some s /\
  @vocab (first_seen k history T) !! FIM_PREFIX = Some p /\
  @vocab (first_seen k history T) !! FIM_MIDDLE = Some m /\
  @vocab (first_seen k history T) !! FIM_PAD = Some d.
Proof.
  rewrite get_fim_token_ids_replays, lookup_empty.
  apply get_fim_token_ids_wrapped_Some_iff.
Qed.

(** Registering the four sentinels in the vocabulary of a tokenizer that
    was never passed to the function makes them resolve, whatever the
    vocabulary held before and whatever other tokenizers were passed. *)
Theorem get_fim_token_ids_after_insert (history : list call) (k : positive)
    (v : gmap string Z) (s p m d : Z)
    (dec : list Z -> Result (pystr + bytes)) (enc : pystr -> Result (list Z)) :
  Forall (fun c : call => fst c <> Some k) history ->
  fst (@get_fim_token_ids (Some k)
         {| vocab := <[FIM_SUFFIX := s]> (<[FIM_PREFIX := p]>
                       (<[FIM_MIDDLE := m]> (<[FIM_PAD := d]> v)));
            tok_decode := dec; tok_encode := enc |}
         (cache_after history ∅))
  = Ok (Some s, Some p, Some m, Some d).
Proof.
  intros Hfresh. rewrite get_fim_token_ids_replays, lookup_empty.
  set (T := {| vocab := _; tok_decode := dec; tok_encode := enc |}).
  assert (Hfirst : first_seen k history T = T).
  { induction Hfresh as [|[key T0] rest Hc _ IH]; [done|]. simpl in Hc |- *.
    by destruct (decide (key = Some k)). }
  rewrite Hfirst. apply get_fim_token_ids_wrapped_Some_iff. subst T. simpl.
  repeat split;
    repeat first [ rewrite lookup_insert_eq | rewrite lookup_insert_ne by done ];
    reflexivity.
Qed.

Lemma get_fim_token_ids_after_insert_witness :
  fst (@get_fim_token_ids (Some 2%positive)
         {| vocab := <[FIM_SUFFIX := 258]> (<[FIM_PREFIX := 256]>
                       (<[FIM_MIDDLE := 257]> (<[FIM_PAD := 259]> ∅)));
            tok_decode := byte_decode; tok_encode := byte_encode |}
         (cache_after [(Some 1%positive, byte_tokenizer vocab_without_pad)] ∅))
  = Ok (Some 258, Some 256, Some 257, Some 259).
Proof.
  apply (get_fim_token_ids_after_insert
           [(Some 1%positive, byte_tokenizer vocab_without_pad)] 2%positive
           ∅ 258 256 257 259 byte_decode byte_encode).
  constructor; [discriminate | constructor].
Defined.

(** A tokenizer is answered once: every later call with the same key repeats
    the answer of the first, whatever state the object is in by then and
    whatever was called in between; so sentinels registered after the first
    call never resolve. *)
Theorem get_fim_token_ids_answer_is_kept (before between : list call)
    (k : positive) (T T' : Tokenizer) :
  fst (@get_fim_token_ids (Some k) T'
         (cache_after (before ++ (Some k, T) :: between) ∅))
  = fst (@get_fim_token_ids (Some k) T (cache_after before ∅)).
Proof.
  rewrite !get_fim_token_ids_replays, !lookup_empty. f_equal.
  induction before as [|[key T0] rest IH]; simpl.
  - by destruct (decide (Some k = Some k)).
  - by destruct (decide (key = Some k)).
Qed.

(** An unhashable tokenizer is a [TypeError], and the cache stays as it
    was. *)
Example get_fim_token_ids_unhashable (T : Tokenizer) (cache : Cache) :
  @get_fim_token_ids None T cache = (Raise TypeError, cache).
Proof. reflexivity. Qed.

(** ** [is_child_type_annotation] *)

(** A node counts as nested exactly when one of its proper ancestors, at any
    distance, has one of the three annotation types; the node's own type
    does not matter. *)
Theorem is_child_type_annotation_iff (node : Node) :
  is_child_type_annotation node = true <->
  exists a, In a (ancestors node) /\
    (type a = "type_annotation"%string \/ type a = "opting_type_annotation"%string
     \/ type a = "omitting_type_annotation"%string).
Proof.
  induction node as [t s e|t s e p IH] using Node_parent_ind; simpl.
  - split; [discriminate | intros (a & [] & _)].
  - destruct (is_annotation_type (type p)) eqn:Hp.
    + split; [|done]. intros _. exists p. split; [by left|].
      by apply is_annotation_type_spec.
    + rewrite IH. split.
      * intros (a & Hin & Ha). exists a. split; [by right | done].
      * intros (a & [<-|Hin] & Ha); [|by exists a].
        apply is_annotation_type_spec in Ha. congruence.
Qed.

(** Nesting is inherited: every node below a nested node is nested, and so
    is every node below an annotation node. *)
Theorem is_child_type_annotation_inherited (t : string) (s e : nat) (p : Node) :
  is_child_type_annotation p = true \/ is_annotation_type (type p) = true ->
  is_child_type_annotation (mkNode t s e (Some p)) = true.
Proof.
  simpl. intros [Hp|Hp]; rewrite Hp; [by destruct (is_annotation_type _) | done].
Qed.

Lemma is_child_type_annotation_inherited_witness :
  is_child_type_annotation (mkNode "predefined_type" 23 29 (Some foo_x)) = true.
Proof.
  apply (is_child_type_annotation_inherited "predefined_type" 23 29 foo_x).
  right. reflexivity.
Defined.

(** ** The two filters *)

Lemma is_capturable_raises (sample : bytes) (node : Node) (e : exn) :
  is_capturable sample node = Raise e ->
  e = UnicodeDecodeError /\ is_child_type_annotation node = false /\
  utf8_decode (slice (start_byte node) (end_byte node) sample) = None.
Proof.
  unfold is_capturable, contains_url, decode_utf8.
  destruct (is_child_type_annotation node); result_simpl; [discriminate|].
  destruct (utf8_decode _); result_simpl; [discriminate|].
  intros Heq. by injection Heq as <-.
Qed.

(** The second loop is no filter: it keeps the index of every node the first
    loop kept, so the index is drawn among all candidates. *)
Theorem splittable_indices_are_all_indices (sample : bytes)
    (captures : list (Node * string)) (cands : list Node) :
  capturable_loop sample captures [] = Ok cands ->
  splittable_loop sample 0 cands [] = Ok (seq 0 (length cands)).
Proof. apply splittable_indices_all. Qed.

Lemma splittable_indices_are_all_indices_witness :
  splittable_loop url_sample 0 [url_a; url_b] [] = Ok [0; 1]%nat.
Proof.
  apply (splittable_indices_are_all_indices url_sample url_captures [url_a; url_b]).
  reflexivity.
Defined.

(** The first loop ends with an empty list exactly when every captured node
    is nested or has [//] in its text. *)
Lemma capturable_loop_empty_iff (sample : bytes) (captures : list (Node * string)) :
  capturable_loop sample captures [] = Ok [] <->
  Forall (fun node => is_child_type_annotation node = true
                      \/ contains_url sample node = Ok true)
         (map fst captures).
Proof.
  induction captures as [|[node name] rest IH]; simpl.
  - split; [constructor | done].
  - unfold is_capturable at 1.
    destruct (is_child_type_annotation node) eqn:Hchild; result_simpl.
    + rewrite IH. split; [by constructor; [left|] | by inversion 1].
    + destruct (contains_url sample node) as [[]|e] eqn:Hurl; result_simpl.
      * rewrite IH. split; [by constructor; [right|] | by inversion 1].
      * split.
        -- intros Hrun. apply capturable_loop_spec in Hrun.
           by destruct (List.filter _ _).
        -- inversion 1 as [|? ? [?|?]]; congruence.
      * split; [discriminate|]. inversion 1 as [|? ? [?|?]]; congruence.
Qed.

(** The first loop raises as soon as a node that is not nested has a byte
    range that is no UTF-8; it raises nothing but [UnicodeDecodeError]. *)
Lemma capturable_loop_undecodable (sample : bytes) (captures : list (Node * string)) :
  forall acc node,
  In node (map fst captures) ->
  is_child_type_annotation node = false ->
  utf8_decode (slice (start_byte node) (end_byte node) sample) = None ->
  capturable_loop sample captures acc = Raise UnicodeDecodeError.
Proof.
  induction captures as [|[node' name] rest IH]; intros acc node Hin Hchild Hdec;
    [done|]. simpl in Hin |- *.
  destruct (is_capturable sample node') as [c|e] eqn:Hcap; result_simpl.
  - destruct Hin as [->|Hin]; [|by apply (IH _ node)].
    unfold is_capturable, contains_url, decode_utf8 in Hcap.
    rewrite Hchild, Hdec in Hcap. discriminate.
  - by apply is_capturable_raises in Hcap as (-> & _).
Qed.

(** ** More on [get_prefix_middle_suffix] *)

Lemma lstrip_split (b : bytes) :
  exists ws, b = ws ++ lstrip b /\ Forall (fun c => is_ascii_space c = true) ws.
Proof.
  induction b as [|c r (ws & Heq & Hws)]; [by exists []|]. simpl.
  destruct (is_ascii_space c) eqn:Hc.
  - exists (c :: ws). split; [by rewrite Heq at 1 | by constructor].
  - by exists [].
Qed.

Section MoreSplit.
Context `{NpRandom} `{TreeSitter}.

Ltac run_simpl :=
  unfold mbind, mret, M_bind, M_ret, lift, np_choice, np_binomial in *; simpl in *.

(** The split gives [None] exactly when every captured node is nested or
    has [//] in its text (in particular when nothing is captured), and then
    it has neither drawn from the generator nor printed. *)
Theorem no_split_iff (sample : bytes) (rate : Rate) (w : World)
    (captures : list (Node * string)) :
  run_query sample = Ok captures ->
  (fst (get_prefix_middle_suffix sample rate w) = Ok None <->
   Forall (fun node => is_child_type_annotation node = true
                       \/ contains_url sample node = Ok true)
          (map fst captures)) /\
  (fst (get_prefix_middle_suffix sample rate w) = Ok None ->
   snd (get_prefix_middle_suffix sample rate w) = w).
Proof.
  intros Hq.
  assert (Hinv : fst (get_prefix_middle_suffix sample rate w) = Ok None ->
                 capturable_loop sample captures [] = Ok []
                 /\ snd (get_prefix_middle_suffix sample rate w) = w).
  { destruct (get_prefix_middle_suffix sample rate w) as [r w'] eqn:Hrun.
    simpl. intros ->.
    apply gpms_inv in Hrun as (captures' & cands & Hq' & Hc & -> & ->).
    rewrite Hq in Hq'. by injection Hq' as <-. }
  split; [split|].
  - intros Hnone. apply capturable_loop_empty_iff. by apply Hinv.
  - intros Hall. apply capturable_loop_empty_iff in Hall.
    by rewrite (gpms_no_candidates _ _ _ _ Hq Hall).
  - intros Hnone. by apply Hinv.
Qed.

(** A run of the split over a byte range that is no UTF-8. *)
Lemma gpms_undecodable (sample : bytes) (rate : Rate) (w : World)
    (captures : list (Node * string)) (node : Node) :
  run_query sample = Ok captures ->
  In node (map fst captures) ->
  is_child_type_annotation node = false ->
  utf8_decode (slice (start_byte node) (end_byte node) sample) = None ->
  get_prefix_middle_suffix sample rate w = (Raise UnicodeDecodeError, w).
Proof.
  intros Hq Hin Hchild Hdec. unfold get_prefix_middle_suffix. run_simpl.
  by rewrite Hq, (capturable_loop_undecodable _ _ _ _ Hin Hchild Hdec).
Qed.

(** A captured node that is not nested and whose byte range is no UTF-8
    makes the split raise [UnicodeDecodeError] before anything is drawn. *)
Theorem split_undecodable_span (sample : bytes) (rate : Rate) (w : World)
    (captures : list (Node * string)) (node : Node) :
  run_query sample = Ok captures ->
  In node (map fst captures) ->
  is_child_type_annotation node = false ->
  utf8_decode (slice (start_byte node) (end_byte node) sample) = None ->
  get_prefix_middle_suffix sample rate w = (Raise UnicodeDecodeError, w).
Proof. apply gpms_undecodable. Qed.

Lemma np_choice_stdout (a : list nat) (w : World) :
  stdout (snd (np_choice a w)) = stdout w.
Proof. unfold np_choice. by destruct (rs_choice a (rng w)). Qed.

Lemma np_binomial_stdout (n : Z) (p : Rate) (w : World) :
  stdout (snd (np_binomial n p w)) = stdout w.
Proof. unfold np_binomial. by destruct (rs_binomial n p (rng w)). Qed.

(** The output before and after a run of the split. *)
Lemma gpms_stdout (sample : bytes) (rate : Rate) (w : World) :
  stdout (snd (get_prefix_middle_suffix sample rate w)) = stdout w.
Proof.
  unfold get_prefix_middle_suffix, mbind, mret, M_bind, M_ret, lift.
  destruct (run_query sample); [|done].
  destruct (capturable_loop _ _ _) as [cands|]; [|done].
  destruct (splittable_loop _ _ _ _) as [indices|]; [|done].
  destruct (length indices =? 0)%nat; [done|].
  pose proof (np_choice_stdout indices w) as Hchoice.
  destruct (np_choice indices w) as [[i|e] w1]; [|done]. simpl in Hchoice.
  destruct (getitem cands i) as [picked|]; [|done].
  destruct (move_colon _ _) as [prefix_b middle_b].
  pose proof (np_binomial_stdout 1 rate w1) as Hstrip.
  destruct (np_binomial 1 rate w1) as [[strip|e] w2]; simpl in Hstrip;
    [|simpl; congruence].
  destruct (suffix_bytes _ _ _ _) as [suffix_b|]; [|simpl; congruence].
  destruct (decode_utf8 prefix_b); [|simpl; congruence].
  destruct (decode_utf8 middle_b); [|simpl; congruence].
  destruct (decode_utf8 suffix_b); simpl; congruence.
Qed.

(** The split never prints, whether it returns or raises. *)
Theorem split_never_prints (sample : bytes) (rate : Rate) (w : World) :
  stdout (snd (get_prefix_middle_suffix sample rate w)) = stdout w.
Proof. apply gpms_stdout. Qed.

End MoreSplit.

Lemma no_split_iff_witness :
  fst (@get_prefix_middle_suffix tape_rng (parser_of only_url_captures)
         only_url_sample (9 # 10)%Q (world0 [7; 7]%nat)) = Ok None /\
  snd (@get_prefix_middle_suffix tape_rng (parser_of only_url_captures)
         only_url_sample (9 # 10)%Q (world0 [7; 7]%nat)) = world0 [7; 7]%nat.
Proof.
  destruct (@no_split_iff tape_rng (parser_of only_url_captures)
              only_url_sample (9 # 10)%Q (world0 [7; 7]%nat) only_url_captures
              eq_refl) as [Hiff Hworld].
  assert (Hnone : fst (@get_prefix_middle_suffix tape_rng (parser_of only_url_captures)
                         only_url_sample (9 # 10)%Q (world0 [7; 7]%nat)) = Ok None).
  { apply Hiff. simpl. constructor; [right; reflexivity | constructor]. }
  split; [exact Hnone | exact (Hworld Hnone)].
Defined.

Lemma split_undecodable_span_witness :
  @get_prefix_middle_suffix tape_rng (parser_of undecodable_captures)
    undecodable_sample (9 # 10)%Q (world0 [7; 7]%nat)
  = (Raise UnicodeDecodeError, world0 [7; 7]%nat).
Proof.
  apply (@split_undecodable_span tape_rng (parser_of undecodable_captures)
           undecodable_sample (9 # 10)%Q (world0 [7; 7]%nat)
           undecodable_captures undecodable_x).
  - reflexivity.
  - simpl. tauto.
  - reflexivity.
  - reflexivity.
Defined.

(** ** The suffix when the candidates are in source order *)

Lemma drop_slice {A} (a b : nat) (l : list A) :
  (a <= b)%nat -> slice_from a l = slice a b l ++ slice_from b l.
Proof.
  intros Hab. unfold slice, slice_from.
  replace (drop b l) with (drop (b - a) (drop a l)).
  - by rewrite take_drop.
  - rewrite drop_drop. f_equal. lia.
Qed.

Lemma gaps_and_spans_cons2 (sample : bytes) (a b : Node) (rest : list Node) :
  gaps_and_spans sample (a :: b :: rest)
  = slice (end_byte a) (start_byte b) sample
    :: slice (start_byte b) (end_byte b) sample
    :: gaps_and_spans sample (b :: rest).
Proof. reflexivity. Qed.

Lemma gap_texts_cons2 (sample : bytes) (a b : Node) (rest : list Node) :
  gap_texts sample (a :: b :: rest)
  = slice (end_byte a) (start_byte b) sample :: gap_texts sample (b :: rest).
Proof. reflexivity. Qed.

Lemma gaps_and_spans_concat (sample : bytes) (spans : list Node) :
  forall a rest,
  spans = a :: rest ->
  in_source_order spans ->
  concat (gaps_and_spans sample spans) = slice_from (end_byte a) sample.
Proof.
  induction spans as [|a' spans IH]; intros a rest Heq Hord; [done|].
  injection Heq as -> ->.
  destruct rest as [|b rest]; [simpl; by rewrite app_nil_r|].
  destruct Hord as (_ & Hab & Hrest).
  pose proof Hrest as (Hb & _).
  rewrite gaps_and_spans_cons2. cbn [concat].
  rewrite (IH b rest eq_refl Hrest).
  rewrite (drop_slice (end_byte a) (start_byte b)) by done.
  by rewrite (drop_slice (start_byte b) (end_byte b)) by done.
Qed.

Lemma gap_texts_sublist (sample : bytes) (spans : list Node) :
  concat (gap_texts sample spans) `sublist_of` concat (gaps_and_spans sample spans).
Proof.
  induction spans as [|a rest IH]; [done|].
  destruct rest as [|b rest]; [done|].
  rewrite gap_texts_cons2, gaps_and_spans_cons2. cbn [concat].
  apply sublist_app; [done|]. by apply sublist_inserts_l.
Qed.

Lemma gaps_and_spans_length (sample : bytes) (spans : list Node) :
  length (concat (gaps_and_spans sample spans))
  = (length (concat (gap_texts sample spans))
     + length (concat (later_span_texts sample spans)))%nat.
Proof.
  induction spans as [|a rest IH]; [done|].
  destruct rest as [|b rest]; [simpl; lia|].
  rewrite gap_texts_cons2, gaps_and_spans_cons2.
  unfold later_span_texts in *. cbn [tail map concat] in *.
  rewrite !length_app, IH. lia.
Qed.

Lemma gap_texts_length (sample : bytes) (spans : list Node) :
  length (gap_texts sample spans) = length spans.
Proof.
  induction spans as [|a rest IH]; [done|].
  destruct rest as [|b rest]; [done|].
  rewrite gap_texts_cons2. cbn [length]. by rewrite IH.
Qed.

Lemma interleave_gaps_and_spans (sample : bytes) (spans : list Node) :
  interleave (gap_texts sample spans) (later_span_texts sample spans)
  = concat (gaps_and_spans sample spans).
Proof.
  induction spans as [|a rest IH]; [done|].
  destruct rest as [|b rest]; [done|].
  rewrite gap_texts_cons2, gaps_and_spans_cons2.
  unfold later_span_texts in *. cbn [tail map interleave concat] in *.
  by rewrite IH.
Qed.

(** With the candidates from the selected one on in source order, cut the
    sample after the selected span at the borders of the later spans: gap,
    span, gap, ..., final gap, one gap more than there are later spans.  The
    kept suffix is all these pieces in turn, the stripped suffix is the gaps
    alone: stripping removes exactly the byte ranges of the later spans and
    keeps every byte between and after them, in order. *)
Theorem stripping_removes_the_later_spans (sample : bytes) (cands : list Node)
    (i : nat) (picked : Node) :
  cands !! i = Some picked ->
  in_source_order (drop i cands) ->
  let gaps := gap_texts sample (drop i cands) in
  let later := later_span_texts sample (drop i cands) in
  length gaps = S (length later) /\
  suffix_bytes sample cands i true = Ok (concat gaps) /\
  suffix_bytes sample cands i false = Ok (interleave gaps later) /\
  interleave gaps later = slice_from (end_byte picked) sample.
Proof.
  intros Hp Hord gaps later. subst gaps later.
  pose proof (gaps_and_spans_concat sample (drop i cands) picked (drop (S i) cands)
                (drop_S _ _ _ Hp) Hord) as Hkept.
  rewrite interleave_gaps_and_spans, Hkept.
  split.
  { rewrite gap_texts_length. unfold later_span_texts.
    rewrite length_map, (drop_S _ _ _ Hp). reflexivity. }
  split; [apply suffix_bytes_strip; by apply lookup_lt_Some in Hp|].
  split; [by apply suffix_bytes_keep | done].
Qed.

Lemma stripping_removes_the_later_spans_witness :
  length (gap_texts foo_sample [foo_x; foo_y; foo_ret])
  = S (length (later_span_texts foo_sample [foo_x; foo_y; foo_ret])) /\
  suffix_bytes foo_sample [foo_x; foo_y; foo_ret] 0 true
  = Ok (concat (gap_texts foo_sample [foo_x; foo_y; foo_ret])) /\
  suffix_bytes foo_sample [foo_x; foo_y; foo_ret] 0 false
  = Ok (interleave (gap_texts foo_sample [foo_x; foo_y; foo_ret])
          (later_span_texts foo_sample [foo_x; foo_y; foo_ret])) /\
  interleave (gap_texts foo_sample [foo_x; foo_y; foo_ret])
    (later_span_texts foo_sample [foo_x; foo_y; foo_ret])
  = slice_from (end_byte foo_x) foo_sample.
Proof.
  apply (stripping_removes_the_later_spans foo_sample [foo_x; foo_y; foo_ret] 0 foo_x).
  - reflexivity.
  - simpl. lia.
Defined.

(** On the sample with three annotations and the first one selected, the
    gaps and the later spans are these byte strings. *)
Example stripping_on_foo :
  gap_texts foo_sample [foo_x; foo_y; foo_ret] = [b_ ", y"; b_ ")"; b_ "; }"] /\
  later_span_texts foo_sample [foo_x; foo_y; foo_ret] = [b_ ": number"; b_ ": number"] /\
  suffix_bytes foo_sample [foo_x; foo_y; foo_ret] 0 true = Ok (b_ ", y); }") /\
  suffix_bytes foo_sample [foo_x; foo_y; foo_ret] 0 false
  = Ok (b_ ", y: number): number; }").
Proof. repeat split; reflexivity. Qed.

(** ** The prefix and the middle *)

(** What moving the colon does to a span: nothing when it has no leading
    colon; otherwise the colon and the run of whitespace after it are cut off
    the middle, and a colon and one space are put at the end of the prefix. *)
Lemma move_colon_shape (prefix_b span p' m' : bytes) :
  move_colon prefix_b span = (p', m') ->
  (startswith_colon span = false /\ p' = prefix_b /\ m' = span) \/
  (exists ws, span = b_ ":" ++ ws ++ m' /\
              Forall (fun c => is_ascii_space c = true) ws /\
              lstrip m' = m' /\
              p' = prefix_b ++ b_ ": ").
Proof.
  unfold move_colon. destruct (startswith_colon span) eqn:Hcolon.
  - intros Heq. injection Heq as <- <-. right.
    destruct span as [|c r]; [discriminate|].
    destruct c; try discriminate. cbn [drop]. rewrite drop_0.
    destruct (lstrip_split r) as (ws & Hr & Hws).
    exists ws. split; [simpl; by rewrite <- Hr|].
    split; [done|]. split; [apply lstrip_idem | done].
  - intros Heq. injection Heq as <- <-. by left.
Qed.

Section Middle.
Context `{NpRandom} `{TreeSitter}.

(** In every returned split the middle is the text of the selected span,
    without its leading colon and the whitespace after the colon when it has
    one; the prefix is the sample up to the span, followed by a colon and one
    space in that case.  The middle then starts with no whitespace. *)
Theorem split_prefix_and_middle (sample : bytes) (rate : Rate) (w w' : World)
    (captures : list (Node * string)) (cands : list Node)
    (i : nat) (g1 : RandomState) (picked : Node) (p m s : pystr) :
  run_query sample = Ok captures ->
  capturable_loop sample captures [] = Ok cands ->
  rs_choice (seq 0 (length cands)) (rng w) = (Ok i, g1) ->
  cands !! i = Some picked ->
  get_prefix_middle_suffix sample rate w = (Ok (Some (p, m, s)), w') ->
  let span := slice (start_byte picked) (end_byte picked) sample in
  (startswith_colon span = false /\
   utf8_decode (slice_to (start_byte picked) sample) = Some p /\
   utf8_decode span = Some m) \/
  (exists ws middle_b,
     span = b_ ":" ++ ws ++ middle_b /\
     Forall (fun c => is_ascii_space c = true) ws /\
     lstrip middle_b = middle_b /\
     utf8_decode (slice_to (start_byte picked) sample ++ b_ ": ") = Some p /\
     utf8_decode middle_b = Some m).
Proof.
  intros Hq Hc Hi Hp Hrun span.
  apply gpms_inv in Hrun as (captures' & cands' & Hq' & Hc' & Hrun).
  rewrite Hq in Hq'. injection Hq' as <-.
  rewrite Hc in Hc'. injection Hc' as <-.
  destruct Hrun as (i' & g1' & picked' & strip & g2 & Hi' & Hp' & _ & Hcarve & _).
  rewrite Hi in Hi'. injection Hi' as <- <-.
  rewrite Hp in Hp'. injection Hp' as <-.
  apply carve_inv in Hcarve as (pb & mb & sb & Hmove & _ & Hdp & Hdm & _).
  apply move_colon_shape in Hmove as [(Hcolon & -> & ->)|(ws & Hspan & Hws & Hm & ->)].
  - by left.
  - right. by exists ws, mb.
Qed.

End Middle.

Lemma split_prefix_and_middle_witness :
  exists ws middle_b,
    slice (start_byte tight_x) (end_byte tight_x) tight_sample
    = b_ ":" ++ ws ++ middle_b /\
    Forall (fun c => is_ascii_space c = true) ws /\
    lstrip middle_b = middle_b /\
    utf8_decode (slice_to (start_byte tight_x) tight_sample ++ b_ ": ")
    = Some (s_ "let x: ") /\
    utf8_decode middle_b = Some (s_ "number").
Proof.
  destruct (@split_prefix_and_middle tape_rng (parser_of tight_captures)
              tight_sample 0%Q (world0 [0; 50]%nat) (world0 [])
              tight_captures [tight_x] 0%nat [50%nat] tight_x
              (s_ "let x: ") (s_ "number") (s_ " = 1")
              eq_refl eq_refl eq_refl eq_refl eq_refl)
    as [(Hcolon & _)|Hshape].
  - vm_compute in Hcolon. discriminate.
  - exact Hshape.
Defined.

(** ** [contains_url] *)

Lemma is_slash_to_N (c : byte) : is_slash c = (47 =? Byte.to_N c)%N.
Proof. by destruct c. Qed.

Lemma has_slashes_cons (c : byte) (r : bytes) :
  has_slashes (c :: r)
  = is_slash c && match r with c' :: _ => is_slash c' | [] => false end
    || has_slashes r.
Proof.
  destruct c; try reflexivity.
  destruct r as [|c' r]; [reflexivity|].
  destruct c'; reflexivity.
Qed.

Lemma str_contains_slashes_cons (c : N) (s : pystr) :
  str_contains (s_ "//") (c :: s)
  = (47 =? c)%N && match s with c' :: _ => (47 =? c')%N | [] => false end
    || str_contains (s_ "//") s.
Proof.
  change (s_ "//") with [47%N; 47%N]. cbn [str_contains str_startswith].
  destruct s as [|c' s]; [by rewrite andb_false_r|].
  by rewrite andb_true_r.
Qed.

Lemma has_slashes_skip (c : byte) (r : bytes) :
  (128 <= Byte.to_N c)%N -> has_slashes (c :: r) = has_slashes r.
Proof.
  intros Hc. rewrite has_slashes_cons, is_slash_to_N.
  replace (47 =? Byte.to_N c)%N with false by (symmetry; apply N.eqb_neq; lia).
  reflexivity.
Qed.

Lemma str_contains_slashes_skip (c : N) (s : pystr) :
  (128 <= c)%N -> str_contains (s_ "//") (c :: s) = str_contains (s_ "//") s.
Proof.
  intros Hc. rewrite str_contains_slashes_cons.
  replace (47 =? c)%N with false by (symmetry; apply N.eqb_neq; lia).
  reflexivity.
Qed.

Lemma is_cont_ge (n : N) : is_cont n = true -> (128 <= n)%N.
Proof. intros Hn. bool_facts. lia. Qed.

Lemma second3_ok_ge (n0 n1 : N) : second3_ok n0 n1 = true -> (128 <= n1)%N.
Proof. intros Hn. bool_facts; lia. Qed.

Lemma second4_ok_ge (n0 n1 : N) : second4_ok n0 n1 = true -> (128 <= n1)%N.
Proof. intros Hn. bool_facts; lia. Qed.

Lemma code_point_2_ge (n0 n1 : N) :
  between 194 223 n0 = true -> (128 <= (n0 - 192) * 64 + (n1 - 128))%N.
Proof. intros Hn. bool_facts. lia. Qed.

Lemma code_point_3_ge (n0 n1 n2 : N) :
  between 224 239 n0 = true -> second3_ok n0 n1 = true ->
  (128 <= (n0 - 224) * 4096 + (n1 - 128) * 64 + (n2 - 128))%N.
Proof. intros Hn0 Hn1. bool_facts; lia. Qed.

Lemma code_point_4_ge (n0 n1 n2 n3 : N) :
  between 240 244 n0 = true -> second4_ok n0 n1 = true ->
  (128 <= (n0 - 240) * 262144 + (n1 - 128) * 4096 + (n2 - 128) * 64 + (n3 - 128))%N.
Proof. intros Hn0 Hn1. bool_facts; lia. Qed.

(** The first code point of a text is [/] exactly when the first byte of its
    UTF-8 form is. *)
Lemma utf8_decode_head_slash (b : bytes) (s : pystr) :
  utf8_decode b = Some s ->
  match s with c :: _ => (47 =? c)%N | [] => false end
  = match b with c :: _ => is_slash c | [] => false end.
Proof.
  intros Hs. destruct b as [|b0 r0]; [by injection Hs as <-|].
  cbn [utf8_decode] in Hs. rewrite is_slash_to_N.
  destruct (Byte.to_N b0 <? 128)%N eqn:H1.
  { destruct (utf8_decode r0); [|discriminate]. by injection Hs as <-. }
  apply N.ltb_ge in H1.
  replace (47 =? Byte.to_N b0)%N with false by (symmetry; apply N.eqb_neq; lia).
  destruct r0 as [|b1 r1]; [discriminate|].
  destruct (between 194 223 (Byte.to_N b0)) eqn:H2.
  { destruct (is_cont (Byte.to_N b1)); [|discriminate].
    destruct (utf8_decode r1); [|discriminate]. injection Hs as <-.
    pose proof (code_point_2_ge _ (Byte.to_N b1) H2).
    apply N.eqb_neq. lia. }
  destruct r1 as [|b2 r2]; [discriminate|].
  destruct (between 224 239 (Byte.to_N b0)) eqn:H3.
  { destruct (second3_ok (Byte.to_N b0) (Byte.to_N b1)) eqn:Hc; [|discriminate].
    destruct (is_cont (Byte.to_N b2)); [|discriminate].
    destruct (utf8_decode r2); [|discriminate]. injection Hs as <-.
    pose proof (code_point_3_ge _ _ (Byte.to_N b2) H3 Hc).
    apply N.eqb_neq. lia. }
  destruct r2 as [|b3 r3]; [discriminate|].
  destruct (between 240 244 (Byte.to_N b0)) eqn:H4; [|discriminate].
  destruct (second4_ok (Byte.to_N b0) (Byte.to_N b1)) eqn:Hc; [|discriminate].
  destruct (is_cont (Byte.to_N b2)); [|discriminate].
  destruct (is_cont (Byte.to_N b3)); [|discriminate].
  destruct (utf8_decode r3); [|discriminate]. injection Hs as <-.
  pose proof (code_point_4_ge _ _ (Byte.to_N b2) (Byte.to_N b3) H4 Hc).
  apply N.eqb_neq. lia.
Qed.

(** A text contains [//] exactly when its UTF-8 form contains the two
    bytes: no byte of a longer sequence is a [/]. *)
Lemma utf8_decode_slashes (b : bytes) :
  forall s, utf8_decode b = Some s -> str_contains (s_ "//") s = has_slashes b.
Proof.
  induction b as [b IH] using (induction_ltof1 _ (@length byte)).
  unfold ltof in IH. intros s Hs.
  destruct b as [|b0 r0]; [by injection Hs as <-|].
  cbn [utf8_decode] in Hs.
  destruct (Byte.to_N b0 <? 128)%N eqn:H1.
  { destruct (utf8_decode r0) as [y|] eqn:Hy; [|discriminate]. injection Hs as <-.
    rewrite str_contains_slashes_cons, has_slashes_cons, is_slash_to_N.
    by rewrite (utf8_decode_head_slash r0 y Hy), (IH r0 ltac:(simpl; lia) y Hy). }
  apply N.ltb_ge in H1. rewrite (has_slashes_skip b0) by done.
  destruct r0 as [|b1 r1]; [discriminate|].
  destruct (between 194 223 (Byte.to_N b0)) eqn:H2.
  { destruct (is_cont (Byte.to_N b1)) eqn:Hc1; [|discriminate].
    destruct (utf8_decode r1) as [y|] eqn:Hy; [|discriminate]. injection Hs as <-.
    rewrite str_contains_slashes_skip by by apply code_point_2_ge.
    rewrite has_slashes_skip by by apply is_cont_ge.
    apply (IH r1); [simpl; lia | done]. }
  destruct r1 as [|b2 r2]; [discriminate|].
  destruct (between 224 239 (Byte.to_N b0)) eqn:H3.
  { destruct (second3_ok (Byte.to_N b0) (Byte.to_N b1)) eqn:Hc1; [|discriminate].
    destruct (is_cont (Byte.to_N b2)) eqn:Hc2; [|discriminate].
    destruct (utf8_decode r2) as [y|] eqn:Hy; [|discriminate]. injection Hs as <-.
    rewrite str_contains_slashes_skip by by apply code_point_3_ge.
    rewrite (has_slashes_skip b1) by by apply (second3_ok_ge (Byte.to_N b0)).
    rewrite has_slashes_skip by by apply is_cont_ge.
    apply (IH r2); [simpl; lia | done]. }
  destruct r2 as [|b3 r3]; [discriminate|].
  destruct (between 240 244 (Byte.to_N b0)) eqn:H4; [|discriminate].
  destruct (second4_ok (Byte.to_N b0) (Byte.to_N b1)) eqn:Hc1; [|discriminate].
  destruct (is_cont (Byte.to_N b2)) eqn:Hc2; [|discriminate].
  destruct (is_cont (Byte.to_N b3)) eqn:Hc3; [|discriminate].
  destruct (utf8_decode r3) as [y|] eqn:Hy; [|discriminate]. injection Hs as <-.
  rewrite str_contains_slashes_skip by by apply code_point_4_ge.
  rewrite (has_slashes_skip b1) by by apply (second4_ok_ge (Byte.to_N b0)).
  rewrite (has_slashes_skip b2) by by apply is_cont_ge.
  rewrite has_slashes_skip by by apply is_cont_ge.
  apply (IH r3); [simpl; lia | done].
Qed.

(** The URL test is a search for the two bytes [//] in the node's byte
    range: it answers that search when the range is UTF-8 and raises
    [UnicodeDecodeError] when it is not. *)
Theorem contains_url_is_a_byte_search (sample : bytes) (node : Node) :
  contains_url sample node
  = match utf8_decode (slice (start_byte node) (end_byte node) sample) with
    | Some _ => Ok (has_slashes (slice (start_byte node) (end_byte node) sample))
    | None => Raise UnicodeDecodeError
    end.
Proof.
  unfold contains_url, decode_utf8.
  destruct (utf8_decode _) as [text|] eqn:Hd; result_simpl; [|done].
  by rewrite (utf8_decode_slashes _ _ Hd).
Qed.

(** ** More on [permute] *)

Section MorePermute.
Context `{NpRandom} `{TreeSitter} `{Tokenizer}.

Ltac permute_unfold :=
  unfold permute, try_except_Exception, mbind, mret, M_bind, M_ret, lift, print_.

(** When FIM is applied and a list comes back, it has three elements more
    than the encodings of the three texts of the split together, and for ids
    that fit int64 it is a rearrangement of the three sentinels and those
    encodings: in either mode no token is lost, added or repeated.  The ids
    come back as exact integers when the three encodings are non-empty, and
    all converted to float64 when one of them is empty. *)
Theorem permute_output_is_a_rearrangement (sample : list Z) (suf pre mid : Z)
    (fim_rate spm_rate strip_rate : Rate) (w w' : World) (fim : Z) (g1 : RandomState)
    (out : list scalar) :
  rs_binomial 1 fim_rate (rng w) = (Ok fim, g1) ->
  truthy fim = true ->
  permute sample suf pre mid fim_rate spm_rate strip_rate w = (Ok (Some out), w') ->
  exists decoded decoded_bytes p m s w2 ep em es,
    tok_decode sample = Ok decoded /\
    as_bytes decoded = Ok decoded_bytes /\
    get_prefix_middle_suffix decoded_bytes strip_rate (mkWorld _ g1 (stdout w))
      = (Ok (Some (p, m, s)), w2) /\
    tok_encode p = Ok ep /\ tok_encode m = Ok em /\ tok_encode s = Ok es /\
    length out = (3 + length ep + length em + length es)%nat /\
    (Forall fits_int64 ([pre; suf; mid] ++ ep ++ em ++ es) ->
     out ≡ₚ map (as_dtype (segments_dtype ep em es))
              ([pre; suf; mid] ++ ep ++ em ++ es)).
Proof.
  intros Hfim Hf. permute_unfold. unfold np_binomial at 1. rewrite Hfim, Hf.
  cbn [rng stdout].
  destruct (tok_decode sample) as [decoded|] eqn:Hd; [|discriminate].
  destruct (as_bytes decoded) as [decoded_bytes|] eqn:Hb; [|discriminate].
  destruct (get_prefix_middle_suffix _ _ _) as [[[[[p m] s]|]|e] w2] eqn:Hsplit;
    [| discriminate | by destruct (is_Exception e)].
  destruct (tok_encode p) as [ep|] eqn:Hp; [|discriminate].
  destruct (tok_encode m) as [em|] eqn:Hm; [|discriminate].
  destruct (tok_encode s) as [es|] eqn:Hs; [|discriminate].
  cbn [fmap Result_fmap].
  destruct (np_binomial 1 spm_rate w2) as [[spm|] w3]; [|discriminate].
  intros Hout.
  exists decoded, decoded_bytes, p, m, s, w2, ep, em, es.
  do 6 (split; [done|]).
  destruct (truthy spm).
  - destruct (spm_sample_length suf pre mid ep em es) as (a & Ha & Hlen).
    rewrite Ha in Hout. injection Hout as <- _. split; [done|].
    intros Hfit. rewrite (spm_sample_tolist _ _ _ _ _ _ _ Hfit Ha).
    apply Permutation_map. solve_Permutation.
  - destruct (psm_sample_length suf pre mid ep em es) as (a & Ha & Hlen).
    rewrite Ha in Hout. injection Hout as <- _. split; [done|].
    intros Hfit. rewrite (psm_sample_tolist _ _ _ _ _ _ _ Hfit Ha).
    apply Permutation_map. solve_Permutation.
Qed.

(** [permute] prints only when it catches an exception of the split: on
    every other run, returning or raising, the output is as it was; and when
    it has printed, the coin flip had succeeded, the split run on the decoded
    bytes of the sample raised an exception deriving from [Exception], the
    result is [None], and exactly two items were added: that exception and
    those decoded bytes. *)
Theorem permute_prints_only_caught_exceptions (sample : list Z) (suf pre mid : Z)
    (fim_rate spm_rate strip_rate : Rate) (w : World) :
  let run := permute sample suf pre mid fim_rate spm_rate strip_rate w in
  stdout (snd run) = stdout w \/
  (exists fim g1 decoded decoded_bytes e w2,
     rs_binomial 1 fim_rate (rng w) = (Ok fim, g1) /\
     truthy fim = true /\
     tok_decode sample = Ok decoded /\
     as_bytes decoded = Ok decoded_bytes /\
     get_prefix_middle_suffix decoded_bytes strip_rate (mkWorld _ g1 (stdout w))
       = (Raise e, w2) /\
     is_Exception e = true /\
     fst run = Ok None /\
     stdout (snd run)
     = stdout w ++ [PrintException e; PrintFailedSample decoded_bytes]).
Proof.
  permute_unfold. unfold np_binomial.
  destruct (rs_binomial 1 fim_rate (rng w)) as [[fim|] g1] eqn:Hfim; [|by left].
  cbn [rng stdout].
  destruct (truthy fim) eqn:Hf; [|by left].
  destruct (tok_decode sample) as [decoded|] eqn:Hd; [|by left].
  destruct (as_bytes decoded) as [decoded_bytes|] eqn:Hb; [|by left].
  pose proof (gpms_stdout decoded_bytes strip_rate (mkWorld _ g1 (stdout w)))
    as Hsplit.
  destruct (get_prefix_middle_suffix _ _ _) as [[[[[p m] s]|]|e] w2] eqn:Hrun;
    simpl in Hsplit.
  - left.
    destruct (tok_encode p); [|done].
    destruct (tok_encode m); [|done].
    destruct (tok_encode s); [|done].
    cbn [fmap Result_fmap].
    destruct (rs_binomial 1 spm_rate (rng w2)) as [[spm|] g3];
      [|simpl; congruence].
    destruct (if truthy spm then _ else _); simpl; congruence.
  - by left.
  - destruct (is_Exception e) eqn:He; [|by left].
    right. exists fim, g1, decoded, decoded_bytes, e, w2.
    do 6 (split; [done|]). simpl. split; [done|].
    by rewrite <- app_assoc, Hsplit.
Qed.

(** If [permute] raises, the exception was raised by the coin flip, by
    [tokenizer.decode] on the sample, by encoding the text it returned as
    UTF-8, by [tokenizer.encode] on one of the three texts of the split or by
    the mode draw after them, or it was raised by the split run on the
    decoded bytes and does not derive from [Exception]; an [Exception] of
    the split never leaves [permute]. *)
Theorem permute_raises_only_outside_the_try (sample : list Z) (suf pre mid : Z)
    (fim_rate spm_rate strip_rate : Rate) (w w' : World) (e : exn) :
  permute sample suf pre mid fim_rate spm_rate strip_rate w = (Raise e, w') ->
  (exists g1, rs_binomial 1 fim_rate (rng w) = (Raise e, g1)) \/
  exists fim g1,
    rs_binomial 1 fim_rate (rng w) = (Ok fim, g1) /\ truthy fim = true /\
    (tok_decode sample = Raise e \/
     exists decoded,
       tok_decode sample = Ok decoded /\
       ((exists text, decoded = inl text /\ encode_utf8 text = Raise e) \/
        exists decoded_bytes,
          as_bytes decoded = Ok decoded_bytes /\
          ((exists w2,
              get_prefix_middle_suffix decoded_bytes strip_rate
                (mkWorld _ g1 (stdout w)) = (Raise e, w2) /\
              is_Exception e = false) \/
           exists p m s w2,
             get_prefix_middle_suffix decoded_bytes strip_rate
               (mkWorld _ g1 (stdout w)) = (Ok (Some (p, m, s)), w2) /\
             (tok_encode p = Raise e \/
              (exists ep, tok_encode p = Ok ep /\
                 (tok_encode m = Raise e \/
                  (exists em, tok_encode m = Ok em /\
                     (tok_encode s = Raise e \/
                      (exists es g3, tok_encode s = Ok es /\
                         rs_binomial 1 spm_rate (rng w2) = (Raise e, g3)))))))))).
Proof.
  permute_unfold. unfold np_binomial at 1.
  destruct (rs_binomial 1 fim_rate (rng w)) as [[fim|e0] g1] eqn:Hfim;
    [|intros Heq; injection Heq as -> _; left; by exists g1].
  cbn [rng stdout].
  destruct (truthy fim) eqn:Hf; [|discriminate].
  intros Hrun. right. exists fim, g1. split; [done|]. split; [done|].
  destruct (tok_decode sample) as [decoded|e0] eqn:Hd;
    [|injection Hrun as -> _; by left].
  right. exists decoded. split; [done|].
  destruct (as_bytes decoded) as [decoded_bytes|e0] eqn:Hb.
  2:{ injection Hrun as -> _. left.
      destruct decoded as [text|b]; [by exists text | discriminate]. }
  right. exists decoded_bytes. split; [done|].
  destruct (get_prefix_middle_suffix _ _ _) as [[[[[p m] s]|]|e0] w2] eqn:Hsplit.
  - right. exists p, m, s, w2. split; [done|].
    destruct (tok_encode p) as [ep|e0] eqn:Hp;
      [|injection Hrun as -> _; by left].
    right. exists ep. split; [done|].
    destruct (tok_encode m) as [em|e0] eqn:Hm;
      [|injection Hrun as -> _; by left].
    right. exists em. split; [done|].
    destruct (tok_encode s) as [es|e0] eqn:Hs;
      [|injection Hrun as -> _; by left].
    right. cbn [fmap Result_fmap] in Hrun. unfold np_binomial in Hrun.
    destruct (rs_binomial 1 spm_rate (rng w2)) as [[spm|e0] g3] eqn:Hspm.
    + exfalso. destruct (truthy spm).
      * destruct (spm_sample_length suf pre mid ep em es) as (a & Ha & _).
        by rewrite Ha in Hrun.
      * destruct (psm_sample_length suf pre mid ep em es) as (a & Ha & _).
        by rewrite Ha in Hrun.
    + injection Hrun as -> _. by exists es, g3.
  - discriminate.
  - left. exists w2. destruct (is_Exception e0) eqn:He; [discriminate|].
    by injection Hrun as -> _.
Qed.

(** A captured node that is not nested and whose byte range is no UTF-8
    costs the sample its FIM transformation: [permute] prints the
    [UnicodeDecodeError] and the decoded bytes and returns [None], with the
    generator as the coin flip left it. *)
Theorem permute_undecodable_span (sample : list Z) (suf pre mid : Z)
    (fim_rate spm_rate strip_rate : Rate) (w : World) (fim : Z) (g1 : RandomState)
    (decoded : pystr + bytes) (decoded_bytes : bytes)
    (captures : list (Node * string)) (node : Node) :
  rs_binomial 1 fim_rate (rng w) = (Ok fim, g1) ->
  truthy fim = true ->
  tok_decode sample = Ok decoded ->
  as_bytes decoded = Ok decoded_bytes ->
  run_query decoded_bytes = Ok captures ->
  In node (map fst captures) ->
  is_child_type_annotation node = false ->
  utf8_decode (slice (start_byte node) (end_byte node) decoded_bytes) = None ->
  permute sample suf pre mid fim_rate spm_rate strip_rate w
  = (Ok None,
     mkWorld _ g1 (stdout w ++ [PrintException UnicodeDecodeError;
                                PrintFailedSample decoded_bytes])).
Proof.
  intros Hfim Hf Hd Hb Hq Hin Hchild Hdec.
  permute_unfold. unfold np_binomial. rewrite Hfim, Hf, Hd, Hb.
  rewrite (gpms_undecodable _ _ _ _ _ Hq Hin Hchild Hdec).
  simpl. by rewrite <- app_assoc.
Qed.

End MorePermute.

(** ** Text from the tokenizer *)

Lemma to_N_byte_of_N (n : N) : (n < 256)%N -> Byte.to_N (byte_of_N n) = n.
Proof.
  intros Hn. unfold byte_of_N.
  destruct (Byte.of_N n) as [b|] eqn:Hb; [by apply Byte.to_of_N|].
  apply Byte.of_N_None_iff in Hb. lia.
Qed.

Ltac pick_branch_divmod :=
  repeat match goal with
    | |- context [(?a <? ?b)%N] =>
      first [ replace (a <? b)%N with true by (symmetry; apply N.ltb_lt; divmod_lia)
            | replace (a <? b)%N with false by (symmetry; apply N.ltb_ge; divmod_lia) ]
    | |- context [(?a <=? ?b)%N] =>
      first [ replace (a <=? b)%N with true by (symmetry; apply N.leb_le; divmod_lia)
            | replace (a <=? b)%N with false by (symmetry; apply N.leb_gt; divmod_lia) ]
    | |- context [(?a =? ?b)%N] =>
      first [ replace (a =? b)%N with true by (symmetry; apply N.eqb_eq; divmod_lia)
            | replace (a =? b)%N with false by (symmetry; apply N.eqb_neq; divmod_lia) ]
    end; cbn [andb orb].

Ltac decode_encoded :=
  cbn [app utf8_decode];
  rewrite !to_N_byte_of_N by divmod_lia;
  unfold second3_ok, second4_ok, is_cont, between;
  pick_branch_divmod;
  first [ reflexivity
        | match goal with
          | |- cons ?x <$> _ = cons ?c <$> _ => replace x with c by divmod_lia
          end; reflexivity ].

(** Decoding the UTF-8 form of a code point gives the code point back. *)
Lemma utf8_decode_encode_cp (c : N) (bs rest : bytes) :
  utf8_encode_cp c = Some bs ->
  utf8_decode (bs ++ rest) = cons c <$> utf8_decode rest.
Proof.
  unfold utf8_encode_cp.
  destruct (c <? 128)%N eqn:H1; [apply N.ltb_lt in H1|apply N.ltb_ge in H1].
  { intros Heq. injection Heq as <-. decode_encoded. }
  destruct (c <? 2048)%N eqn:H2; [apply N.ltb_lt in H2|apply N.ltb_ge in H2].
  { intros Heq. injection Heq as <-. decode_encoded. }
  destruct (c <? 65536)%N eqn:H3; [apply N.ltb_lt in H3|apply N.ltb_ge in H3].
  { destruct (between 55296 57343 c) eqn:Hsur; [discriminate|].
    unfold between in Hsur. apply andb_false_iff in Hsur.
    intros Heq. injection Heq as <-.
    destruct (N.lt_ge_cases c 4096);
      [|destruct (N.eq_dec (c / 4096)%N 13%N)];
      destruct Hsur as [Hsur|Hsur]; apply N.leb_gt in Hsur;
      try (exfalso; divmod_lia); decode_encoded. }
  destruct (c <? 1114112)%N eqn:H4; [apply N.ltb_lt in H4|discriminate].
  intros Heq. injection Heq as <-.
  destruct (N.lt_ge_cases c 262144);
    [|destruct (N.eq_dec (c / 262144)%N 4%N)];
    decode_encoded.
Qed.

(** Decoding the UTF-8 form of a text gives the text back. *)
Lemma utf8_decode_encode (s : pystr) :
  forall b, utf8_encode s = Some b -> utf8_decode b = Some s.
Proof.
  induction s as [|c s IH]; intros b Hb; simpl in Hb.
  - by injection Hb as <-.
  - destruct (utf8_encode_cp c) as [bc|] eqn:Hc; [|discriminate].
    destruct (utf8_encode s) as [bs|] eqn:Hs; [|discriminate].
    injection Hb as <-.
    by rewrite (utf8_decode_encode_cp _ _ _ Hc), (IH bs eq_refl).
Qed.

(** Text that the tokenizer decodes to reaches the split unharmed: the bytes
    handed on are the tokenizer's own bytes, or decode back to the
    tokenizer's text. *)
Theorem as_bytes_round_trip (decoded : pystr + bytes) (decoded_bytes : bytes) :
  as_bytes decoded = Ok decoded_bytes ->
  match decoded with
  | inl text => utf8_decode decoded_bytes = Some text
  | inr b => decoded_bytes = b
  end.
Proof.
  destruct decoded as [text|b]; simpl.
  - unfold encode_utf8. intros Henc. apply or_raise_Ok in Henc.
    by apply utf8_decode_encode.
  - intros Heq. by injection Heq as <-.
Qed.

Lemma as_bytes_round_trip_witness :
  utf8_decode [xf0; x9f; x98; x80; x2f] = Some [128512%N; 47%N].
Proof.
  apply (as_bytes_round_trip (inl [128512%N; 47%N]) [xf0; x9f; x98; x80; x2f]).
  reflexivity.
Defined.

(** *** More of [permute] on concrete inputs *)

Lemma permute_unmodified_witness :
  @permute tape_rng (parser_of []) (byte_tokenizer full_vocab)
    plain_tokens 258 256 257 0%Q (1 # 2)%Q (9 # 10)%Q (world0 [50%nat])
  = (Ok (Some (list_of_tokens plain_tokens)), world0 []).
Proof.
  apply (@permute_unmodified tape_rng (parser_of []) (byte_tokenizer full_vocab)
           plain_tokens 258 256 257 0%Q (1 # 2)%Q (9 # 10)%Q
           (world0 [50%nat]) 0 []); reflexivity.
Defined.

Lemma permute_decode_exception_propagates_witness :
  @permute tape_rng (parser_of []) (byte_tokenizer full_vocab)
    [300] 258 256 257 1%Q (1 # 2)%Q (9 # 10)%Q (world0 [0%nat])
  = (Raise ValueError, world0 []).
Proof.
  apply (@permute_decode_exception_propagates tape_rng (parser_of [])
           (byte_tokenizer full_vocab)
           [300] 258 256 257 1%Q (1 # 2)%Q (9 # 10)%Q
           (world0 [0%nat]) 1 [] ValueError); reflexivity.
Defined.

Lemma permute_output_is_a_rearrangement_witness :
  exists decoded decoded_bytes p m s w2 ep em es,
    @tok_decode (byte_tokenizer full_vocab) foo_tokens = Ok decoded /\
    as_bytes decoded = Ok decoded_bytes /\
    @get_prefix_middle_suffix tape_rng (parser_of foo_captures)
      decoded_bytes 0%Q (world0 [0; 0; 0]%nat)
      = (Ok (Some (p, m, s)), w2) /\
    @tok_encode (byte_tokenizer full_vocab) p = Ok ep /\
    @tok_encode (byte_tokenizer full_vocab) m = Ok em /\
    @tok_encode (byte_tokenizer full_vocab) s = Ok es /\
    length (map Int ([256; 258] ++ t_ ", y: number): number; }" ++ [257]
                       ++ t_ "interface Foo { foo(x: " ++ t_ "number"))
    = (3 + length ep + length em + length es)%nat /\
    (Forall fits_int64 ([256; 258; 257] ++ ep ++ em ++ es) ->
     map Int ([256; 258] ++ t_ ", y: number): number; }" ++ [257]
                ++ t_ "interface Foo { foo(x: " ++ t_ "number")
     ≡ₚ map (as_dtype (segments_dtype ep em es))
          ([256; 258; 257] ++ ep ++ em ++ es)).
Proof.
  apply (@permute_output_is_a_rearrangement tape_rng (parser_of foo_captures)
           (byte_tokenizer full_vocab)
           foo_tokens 258 256 257 1%Q 1%Q 0%Q
           (world0 [0; 0; 0; 0]%nat) (world0 []) 1 [0; 0; 0]%nat);
    reflexivity.
Defined.

Lemma permute_raises_only_outside_the_try_witness :
  (exists g1, @rs_binomial tape_rng 1 1%Q [0%nat] = (Raise ValueError, g1)) \/
  exists fim g1,
    @rs_binomial tape_rng 1 1%Q [0%nat] = (Ok fim, g1) /\ truthy fim = true /\
    (@tok_decode (byte_tokenizer full_vocab) [300] = Raise ValueError \/
     exists decoded,
       @tok_decode (byte_tokenizer full_vocab) [300] = Ok decoded /\
       ((exists text, decoded = inl text /\ encode_utf8 text = Raise ValueError) \/
        exists decoded_bytes,
          as_bytes decoded = Ok decoded_bytes /\
          ((exists w2,
              @get_prefix_middle_suffix tape_rng (parser_of []) decoded_bytes
                (9 # 10)%Q (@mkWorld tape_rng g1 []) = (Raise ValueError, w2) /\
              is_Exception ValueError = false) \/
           exists p m s w2,
             @get_prefix_middle_suffix tape_rng (parser_of []) decoded_bytes
               (9 # 10)%Q (@mkWorld tape_rng g1 []) = (Ok (Some (p, m, s)), w2) /\
             (@tok_encode (byte_tokenizer full_vocab) p = Raise ValueError \/
              (exists ep, @tok_encode (byte_tokenizer full_vocab) p = Ok ep /\
                 (@tok_encode (byte_tokenizer full_vocab) m = Raise ValueError \/
                  (exists em, @tok_encode (byte_tokenizer full_vocab) m = Ok em /\
                     (@tok_encode (byte_tokenizer full_vocab) s = Raise ValueError \/
                      (exists es g3,
                         @tok_encode (byte_tokenizer full_vocab) s = Ok es /\
                         @rs_binomial tape_rng 1 (1 # 2)%Q (rng w2)
                         = (Raise ValueError, g3)))))))))).
Proof.
  apply (@permute_raises_only_outside_the_try tape_rng (parser_of [])
           (byte_tokenizer full_vocab)
           [300] 258 256 257 1%Q (1 # 2)%Q (9 # 10)%Q
           (world0 [0%nat]) (world0 []) ValueError); reflexivity.
Defined.

Lemma permute_undecodable_span_witness :
  @permute tape_rng (parser_of undecodable_captures) (byte_tokenizer full_vocab)
    undecodable_tokens 258 256 257 1%Q (1 # 2)%Q (9 # 10)%Q (world0 [0; 7]%nat)
  = (Ok None,
     @mkWorld tape_rng [7%nat]
       [PrintException UnicodeDecodeError; PrintFailedSample undecodable_sample]).
Proof.
  apply (@permute_undecodable_span tape_rng (parser_of undecodable_captures)
           (byte_tokenizer full_vocab)
           undecodable_tokens 258 256 257 1%Q (1 # 2)%Q (9 # 10)%Q
           (world0 [0; 7]%nat) 1 [7%nat]
           (inr undecodable_sample) undecodable_sample
           undecodable_captures undecodable_x);
    try reflexivity.
  simpl. tauto.
Defined.
